(** * The ARRL training driver (main.py), embedded in Rocq

    The driver alternates rollout collection, parameter updates and
    evaluation of an adversarially trained DDPG agent.  The agent, the noise
    processes, the simulator and the numeric library are collaborators of
    the driver: they are taken through the interface [World], and the
    driver is written over it with explicit state passing.  Python
    exceptions are values of [result]. *)

From Stdlib Require Import ZArith Lia Bool List String.
From Stdlib Require Import Ascii DecimalString.
From stdpp Require Import base option list gmap.
Import ListNotations.
Local Open Scope Z_scope.

(** ** Exceptions *)

Inductive exn : Type :=
| ZeroDivisionError
| AssertionError
| EnvironmentNotAvailable (env_type : string)
| FileExistsError
| PermissionError
| OtherOSError
| AttributeError
| TypeError
| ValueError.

Inductive result (A : Type) : Type :=
| Ok (a : A)
| Raise (e : exn).
Arguments Ok {A} a.
Arguments Raise {A} e.

Definition bind {A B : Type} (r : result A) (k : A -> result B) : result B :=
  match r with
  | Ok a => k a
  | Raise e => Raise e
  end.

Notation "'do' x <- e ; k" := (bind e (fun x => k))
  (at level 10, x name, e at level 100, k at level 200).

(** [for _ in range(n): body], the loop variable unused by the body. *)
Fixpoint for_range {S : Type} (n : nat) (body : S -> result S) (s : S) : result S :=
  match n with
  | O => Ok s
  | Datatypes.S k => do s' <- body s; for_range k body s'
  end.

(** Python's [range] over an [int]: empty when the bound is not positive. *)
Definition range_len (n : Z) : nat := Z.to_nat n.

(** Python's [%] and [//] on integers: floored, and an error on a zero divisor. *)
Definition py_mod (a b : Z) : result Z :=
  if b =? 0 then Raise ZeroDivisionError else Ok (a mod b).

Definition py_floordiv (a b : Z) : result Z :=
  if b =? 0 then Raise ZeroDivisionError else Ok (a / b).

(** ** Run configuration *)

Inductive method : Type := mdp | pr_mdp | nr_mdp.

Definition method_eqb (a b : method) : bool :=
  match a, b with
  | mdp, mdp | pr_mdp, pr_mdp | nr_mdp, nr_mdp => true
  | _, _ => false
  end.

(** What the command line holds: [None] where the option was not given. *)
Record Cli : Type := {
  cli_env_name : option string;
  cli_ou_noise : bool;
  cli_param_noise : bool;
  cli_batch_size : option Z;
  cli_num_epochs : option Z;
  cli_num_epochs_cycles : option Z;
  cli_num_rollout_steps : option Z;
  cli_num_steps : option Z;
  cli_param_noise_interval : option Z;
  cli_number_of_train_steps : option Z;
  cli_method : option method;
  cli_ratio : option Z;
  cli_flip_ratio : bool;
  cli_exploration_method : option method;
  cli_seed : option Z
}.

(** The [args] namespace. *)
Record Args : Type := {
  env_name : string;
  ou_noise : bool;
  param_noise : bool;
  batch_size : Z;
  num_epochs : option Z;
  num_epochs_cycles : Z;
  num_rollout_steps : Z;
  num_steps : option Z;
  param_noise_interval : Z;
  number_of_train_steps : Z;
  method_ : method;
  ratio : Z;
  flip_ratio : bool;
  exploration_method : option method;
  seed : option Z
}.

(** [parser.parse_args()]: each absent option takes its declared default.
    [--ou_noise] is a store_true flag whose default is already True. *)
Definition parse_args (c : Cli) : Args := {|
  env_name := default "halfcheetah"%string (cli_env_name c);
  ou_noise := true;
  param_noise := cli_param_noise c;
  batch_size := default 64 (cli_batch_size c);
  num_epochs := cli_num_epochs c;
  num_epochs_cycles := default 20 (cli_num_epochs_cycles c);
  num_rollout_steps := default 100 (cli_num_rollout_steps c);
  num_steps := Some (default 2000000 (cli_num_steps c));
  param_noise_interval := default 50 (cli_param_noise_interval c);
  number_of_train_steps := default 50 (cli_number_of_train_steps c);
  method_ := default nr_mdp (cli_method c);
  ratio := default 1 (cli_ratio c);
  flip_ratio := cli_flip_ratio c;
  exploration_method := cli_exploration_method c;
  seed := cli_seed c
|}.

Definition load_env_name (env_type : string) : result string :=
  if String.eqb env_type "halfcheetah" then Ok "HalfCheetah-v4"%string
  else if String.eqb env_type "hopper" then Ok "Hopper-v4"%string
  else if String.eqb env_type "walker2d" then Ok "Walker2d-v4"%string
  else Raise (EnvironmentNotAvailable env_type).

Definition set_exploration_method (a : Args) (m : option method) : Args :=
  {| env_name := env_name a; ou_noise := ou_noise a; param_noise := param_noise a;
     batch_size := batch_size a; num_epochs := num_epochs a;
     num_epochs_cycles := num_epochs_cycles a; num_rollout_steps := num_rollout_steps a;
     num_steps := num_steps a; param_noise_interval := param_noise_interval a;
     number_of_train_steps := number_of_train_steps a; method_ := method_ a;
     ratio := ratio a; flip_ratio := flip_ratio a;
     exploration_method := m; seed := seed a |}.

Definition set_ratio (a : Args) (r : Z) : Args :=
  {| env_name := env_name a; ou_noise := ou_noise a; param_noise := param_noise a;
     batch_size := batch_size a; num_epochs := num_epochs a;
     num_epochs_cycles := num_epochs_cycles a; num_rollout_steps := num_rollout_steps a;
     num_steps := num_steps a; param_noise_interval := param_noise_interval a;
     number_of_train_steps := number_of_train_steps a; method_ := method_ a;
     ratio := r; flip_ratio := flip_ratio a;
     exploration_method := exploration_method a; seed := seed a |}.

Definition set_env_name (a : Args) (n : string) : Args :=
  {| env_name := n; ou_noise := ou_noise a; param_noise := param_noise a;
     batch_size := batch_size a; num_epochs := num_epochs a;
     num_epochs_cycles := num_epochs_cycles a; num_rollout_steps := num_rollout_steps a;
     num_steps := num_steps a; param_noise_interval := param_noise_interval a;
     number_of_train_steps := number_of_train_steps a; method_ := method_ a;
     ratio := ratio a; flip_ratio := flip_ratio a;
     exploration_method := exploration_method a; seed := seed a |}.

(** Lines 89-93: the derived settings written back into [args]. *)
Definition derive_args (a : Args) : result Args :=
  let a1 :=
    match exploration_method a with
    | None => set_exploration_method a (Some (method_ a))
    | Some _ => a
    end in
  let a2 := set_ratio a1 (if method_eqb (method_ a1) pr_mdp then 10 else 1) in
  do n <- load_env_name (env_name a2);
  Ok (set_env_name a2 n).

(** Line 184: [args.ratio += 1]. *)
Definition incr_ratio (a : Args) : Args := set_ratio a (ratio a + 1).

(** The exploration method once [derive_args] has run (never [None] then). *)
Definition exploration_of (a : Args) : method :=
  default (method_ a) (exploration_method a).

(** Lines 40-48, called at line 96 with the parsed seed.  [random.seed] and
    [np.random.seed] take [None]; [np.random.seed] (line 42) raises
    ValueError on an integer outside 0 .. 2**32 - 1 and [torch.manual_seed]
    (line 43) raises TypeError on [None].  Lines 47-48 set two attributes
    of the environment object, which the driver never reads. *)
Definition set_seed_everywhere (seed : option Z) : result unit :=
  match seed with
  | None => Raise TypeError
  | Some s =>
      if (0 <=? s) && (s <=? 4294967295) then Ok tt else Raise ValueError
  end.

(** Lines 163-167. *)
Definition compute_nb_epochs (a : Args) : result Z :=
  match num_steps a with
  | Some n =>
      match num_epochs a with
      | Some _ => Raise AssertionError
      | None => py_floordiv n (num_epochs_cycles a * num_rollout_steps a)
      end
  | None => Ok 500
  end.

(** Line 238. Both comparisons evaluate the modulo first. *)
Definition adversary_update (train_steps ratio_ : Z) (flip : bool) : result bool :=
  do m <- py_mod train_steps ratio_;
  if (m =? 0) && negb flip then Ok true
  else
    do m' <- py_mod train_steps ratio_;
    Ok (negb (m' =? 0) && flip).

(** ** The collaborators of the driver

    Tensors, the simulator, the agent and the noise objects are opaque to
    the driver; every call that mutates an object returns its new value.
    Random draws are threaded through the object that makes them. *)

Class World : Type := {
  Obs : Type;
  Action : Type;
  Scalar : Type;
  Info : Type;
  Sim : Type;
  Agent : Type;
  OUNoise : Type;
  ParamNoise : Type;
  SelectOut : Type;

  (* the simulator behind gym.make *)
  gym_make : string -> option Z -> Sim;
  gym_step : Sim -> Action -> Sim * (Obs * Scalar * bool * bool * Info);
  gym_reset : Sim -> Sim * (Obs * Info);
  (* NormalizedActions.action *)
  normalize : Action -> Action;

  (* DDPG *)
  DDPG : Args -> Agent;
  select_action :
    Agent -> Obs -> option OUNoise -> option ParamNoise -> method ->
    Agent * option OUNoise * SelectOut;
  unpack3 : SelectOut -> Action * Action * Action;
  as_tensor : SelectOut -> Action;
  store_transition : Agent -> Obs -> Action -> bool -> Obs -> Scalar -> Agent;
  memory_len : Agent -> Z;
  memory_sample : Agent -> Z -> Agent * list (Obs * Action * bool * Obs * Scalar);
  update_parameters :
    Agent -> Z -> method -> bool -> method -> Agent * (Scalar * Scalar * Scalar);
  perturb_actor_parameters : Agent -> ParamNoise -> Agent;

  (* noise objects *)
  OrnsteinUhlenbeckActionNoise : Args -> OUNoise;
  ou_reset : OUNoise -> OUNoise;
  AdaptiveParamNoiseSpec : Args -> ParamNoise;
  adapt : ParamNoise -> Scalar -> ParamNoise;
  ddpg_distance_metric : Action -> Action -> Scalar;

  (* torch / numpy *)
  stack_obs : list Obs -> Obs;
  stack_act : list Action -> Action;
  np_mean : list Scalar -> Scalar;
  np_mean_scalar : Scalar -> Scalar;
  scalar_add : Scalar -> Scalar -> Scalar;
  scalar_zero : Scalar;
  scalar_str : Scalar -> string;

  agent_train : Agent -> Agent;

  (* the operating system and the run directory (lines 113-141) *)
  base_dir_name : Args -> string;
  dataset_dir_name : string;
  os_path_exists : string -> bool;
  os_makedirs : string -> result unit
}.

(** ** Environments

    [gym.make] is called once (line 95), so a run has one simulator object;
    an environment handle is that object under a stack of wrappers. *)

Inductive Env : Type :=
| GymEnv
| NormalizedActions (inner : Env).

(** Lines 95-98. *)
Definition env : Env := NormalizedActions GymEnv.
Definition eval_env : Env := NormalizedActions env.

Section Driver.
Context `{W : World}.

(** Modelled from the spec: normalized_actions.py is missing; the wrapper
    that bounds the action space to [-1, 1] rescales the action and passes
    step and reset on to the environment it wraps. *)
Fixpoint env_step (e : Env) (s : Sim) (a : Action)
  : Sim * (Obs * Scalar * bool * bool * Info) :=
  match e with
  | GymEnv => gym_step s a
  | NormalizedActions inner => env_step inner s (normalize a)
  end.

Fixpoint env_reset (e : Env) (s : Sim) : Sim * (Obs * Info) :=
  match e with
  | GymEnv => gym_reset s
  | NormalizedActions inner => env_reset inner s
  end.

(** One entry of the dataset: the dict built at line 210, with the two
    keys that lines 207-208 add later. *)
Record Indict : Type := {
  i_reward : string;
  i_state : Obs;
  i_done : bool;
  i_info : Info;
  i_pr_action : option Action;
  i_adv_action : option Action
}.

Record Results : Type := {
  r_eval_rewards : list (Z * Scalar);
  r_value_losses : list (Z * Scalar);
  r_policy_losses : list (Z * Scalar);
  r_adversary_losses : list (Z * Scalar);
  r_train_rewards : list (Z * Scalar)
}.

(** What one rollout step contributes to the dataset. *)
Record StepObs : Type := {
  so_reward : Scalar;
  so_state : Obs;
  so_done : bool;
  so_trunc : bool;
  so_info : Info;
  so_pr_mu : Action;
  so_adv_mu : Action
}.

(** The calls the driver makes on its collaborators, in order, with their
    arguments; [EvUpdateParameters] also keeps the losses the call returned
    and [EvRollout] what a rollout step observed. *)
Inductive Event : Type :=
| EvSelectAction (s : Obs) (a_noise : option OUNoise) (p_noise : option ParamNoise)
                 (mdp_type : method)
| EvEnvStep (e : Env) (a : Action)
| EvEnvReset (e : Env)
| EvRollout (o : StepObs)
| EvSample (n : Z)
| EvAdapt (dist : Scalar)
| EvUpdateParameters (bs : Z) (mdp_type : method) (adv : bool) (expl : method)
                     (losses : Scalar * Scalar * Scalar)
| EvSaveModel
| EvPickleDump (r : Results)
| EvVisPlot
| EvJsonDump (store : gmap Z (list Indict)).

(** The variables of the script. *)
Record Driver : Type := {
  agent : Agent;
  ounoise : option OUNoise;
  pnoise : option ParamNoise;
  sim : Sim;
  state : Obs;
  eval_state : Obs;
  eval_reward : Scalar;
  episode_reward : Scalar;
  total_steps : Z;
  train_steps : Z;
  ep : Z;
  hacky_indict : option Indict;
  hacky_store : gmap Z (list Indict);
  results_dict : Results;
  value_losses : list Scalar;
  policy_losses : list Scalar;
  adversary_losses : list Scalar;
  trace : list Event
}.

(** [hacky_store[ep].append(d)] on a defaultdict(list). *)
Definition store_append (store : gmap Z (list Indict)) (k : Z) (d : Indict)
  : gmap Z (list Indict) :=
  <[k := default [] (store !! k) ++ [d]]> store.

Definition set_actions (d : Indict) (pr adv : Action) : Indict :=
  {| i_reward := i_reward d; i_state := i_state d; i_done := i_done d;
     i_info := i_info d; i_pr_action := Some pr; i_adv_action := Some adv |}.

(** Lines 206-210 and 219-220: the dataset variables across one rollout step. *)
Definition dataset_step (h : Z * option Indict * gmap Z (list Indict)) (o : StepObs)
  : Z * option Indict * gmap Z (list Indict) :=
  let '(k, indict, store) := h in
  let store1 :=
    match indict with
    | Some d => store_append store k (set_actions d (so_pr_mu o) (so_adv_mu o))
    | None => store
    end in
  let indict1 :=
    Some {| i_reward := scalar_str (so_reward o); i_state := so_state o;
            i_done := so_done o; i_info := so_info o;
            i_pr_action := None; i_adv_action := None |} in
  if so_done o || so_trunc o then (k + 1, None, store1) else (k, indict1, store1).

(** Lines 154-158. The body perturbs with the global [param_noise]. *)
Definition reset_noise (a : Agent) (a_noise : option OUNoise) (p_noise : option ParamNoise)
  : Agent * option OUNoise :=
  (match p_noise with Some pn => perturb_actor_parameters a pn | None => a end,
   ou_reset <$> a_noise).

Definition add_train_reward (r : Results) (x : Z * Scalar) : Results :=
  {| r_eval_rewards := r_eval_rewards r; r_value_losses := r_value_losses r;
     r_policy_losses := r_policy_losses r; r_adversary_losses := r_adversary_losses r;
     r_train_rewards := r_train_rewards r ++ [x] |}.

Definition add_eval_reward (r : Results) (x : Z * Scalar) : Results :=
  {| r_eval_rewards := r_eval_rewards r ++ [x]; r_value_losses := r_value_losses r;
     r_policy_losses := r_policy_losses r; r_adversary_losses := r_adversary_losses r;
     r_train_rewards := r_train_rewards r |}.

Definition add_losses (r : Results) (v p a : Z * Scalar) : Results :=
  {| r_eval_rewards := r_eval_rewards r; r_value_losses := r_value_losses r ++ [v];
     r_policy_losses := r_policy_losses r ++ [p];
     r_adversary_losses := r_adversary_losses r ++ [a];
     r_train_rewards := r_train_rewards r |}.

(** Lines 194-222: one iteration of the rollout loop. *)
Definition rollout_step (a : Args) (d : Driver) : Driver :=
  let '(ag1, ou1, out) :=
    select_action (agent d) (state d) (ounoise d) (pnoise d) (exploration_of a) in
  let '(action, pr_mu, adv_mu) := unpack3 out in
  let '(sim1, (next_state, reward, done, trunc, info)) :=
    env_step env (sim d) action in
  let total_steps1 := total_steps d + 1 in
  let episode_reward1 := scalar_add (episode_reward d) reward in
  let ag2 := store_transition ag1 (state d) action (negb done) next_state reward in
  let o :=
    {| so_reward := reward; so_state := state d; so_done := done; so_trunc := trunc;
       so_info := info; so_pr_mu := pr_mu; so_adv_mu := adv_mu |} in
  let '(ep1, indict1, store1) :=
    dataset_step (ep d, hacky_indict d, hacky_store d) o in
  let tr1 :=
    trace d ++ [EvSelectAction (state d) (ounoise d) (pnoise d) (exploration_of a);
                EvEnvStep env action; EvRollout o] in
  if done || trunc then
    let '(sim2, (s0, _)) := env_reset env sim1 in
    let '(ag3, ou3) := reset_noise ag2 ou1 (pnoise d) in
    {| agent := ag3; ounoise := ou3; pnoise := pnoise d; sim := sim2;
       state := s0; eval_state := eval_state d; eval_reward := eval_reward d;
       episode_reward := scalar_zero; total_steps := total_steps1;
       train_steps := train_steps d; ep := ep1; hacky_indict := indict1;
       hacky_store := store1;
       results_dict :=
         add_train_reward (results_dict d) (total_steps1, np_mean_scalar episode_reward1);
       value_losses := value_losses d; policy_losses := policy_losses d;
       adversary_losses := adversary_losses d;
       trace := tr1 ++ [EvEnvReset env] |}
  else
    {| agent := ag2; ounoise := ou1; pnoise := pnoise d; sim := sim1;
       state := next_state; eval_state := eval_state d; eval_reward := eval_reward d;
       episode_reward := episode_reward1; total_steps := total_steps1;
       train_steps := train_steps d; ep := ep1; hacky_indict := indict1;
       hacky_store := store1; results_dict := results_dict d;
       value_losses := value_losses d; policy_losses := policy_losses d;
       adversary_losses := adversary_losses d;
       trace := tr1 |}.

(** Lines 229-236: the distance of the stored actions of a sampled batch
    from the actions the unperturbed policy gives on the states of that
    batch, handed to [param_noise.adapt]. *)
Definition adapt_param_noise (a : Args) (d : Driver) : result Driver :=
  let '(ag1, episode_transitions) := memory_sample (agent d) (batch_size a) in
  let states := stack_obs (map (fun t => t.1.1.1.1) episode_transitions) in
  let '(ag2, _, out) := select_action ag1 states None None mdp in
  let unperturbed_actions := as_tensor out in
  let perturbed_actions := stack_act (map (fun t => t.1.1.1.2) episode_transitions) in
  let ddpg_dist := ddpg_distance_metric perturbed_actions unperturbed_actions in
  match pnoise d with
  | None => Raise AttributeError
  | Some pn =>
      Ok {| agent := ag2; ounoise := ounoise d; pnoise := Some (adapt pn ddpg_dist);
            sim := sim d; state := state d; eval_state := eval_state d;
            eval_reward := eval_reward d; episode_reward := episode_reward d;
            total_steps := total_steps d; train_steps := train_steps d; ep := ep d;
            hacky_indict := hacky_indict d; hacky_store := hacky_store d;
            results_dict := results_dict d; value_losses := value_losses d;
            policy_losses := policy_losses d; adversary_losses := adversary_losses d;
            trace := trace d ++ [EvSample (batch_size a);
                                 EvSelectAction states None None mdp;
                                 EvAdapt ddpg_dist] |}
  end.

(** Lines 227-236: the modulo is evaluated before the flag is read. *)
Definition maybe_adapt (a : Args) (d : Driver) : result Driver :=
  do m <- py_mod (train_steps d) (param_noise_interval a);
  if (m =? 0) && param_noise a then adapt_param_noise a d else Ok d.

(** Lines 238-247. *)
Definition update_call (a : Args) (d : Driver) : result Driver :=
  do adv <- adversary_update (train_steps d) (ratio a) (flip_ratio a);
  let '(ag, (value_loss, policy_loss, adversary_loss)) :=
    update_parameters (agent d) (batch_size a) (method_ a) adv (exploration_of a) in
  Ok {| agent := ag; ounoise := ounoise d; pnoise := pnoise d;
        sim := sim d; state := state d; eval_state := eval_state d;
        eval_reward := eval_reward d; episode_reward := episode_reward d;
        total_steps := total_steps d; train_steps := train_steps d + 1; ep := ep d;
        hacky_indict := hacky_indict d; hacky_store := hacky_store d;
        results_dict := results_dict d;
        value_losses := value_losses d ++ [value_loss];
        policy_losses := policy_losses d ++ [policy_loss];
        adversary_losses := adversary_losses d ++ [adversary_loss];
        trace := trace d ++
          [EvUpdateParameters (batch_size a) (method_ a) adv (exploration_of a)
             (value_loss, policy_loss, adversary_loss)] |}.

(** Lines 227-247: one iteration of the update loop. *)
Definition train_step (a : Args) (d : Driver) : result Driver :=
  do d1 <- maybe_adapt a d;
  update_call a d1.

(** Lines 249-254. *)
Definition record_losses (d : Driver) : Driver :=
  {| agent := agent d; ounoise := ounoise d; pnoise := pnoise d;
     sim := sim d; state := state d; eval_state := eval_state d;
     eval_reward := eval_reward d; episode_reward := episode_reward d;
     total_steps := total_steps d; train_steps := train_steps d; ep := ep d;
     hacky_indict := hacky_indict d; hacky_store := hacky_store d;
     results_dict :=
       add_losses (results_dict d)
         (total_steps d, np_mean (value_losses d))
         (total_steps d, np_mean (policy_losses d))
         (total_steps d, np_mean (adversary_losses d));
     value_losses := []; policy_losses := []; adversary_losses := [];
     trace := trace d |}.

(** Lines 225-254: the update phase of a cycle. *)
Definition update_phase (a : Args) (d : Driver) : result Driver :=
  if memory_len (agent d) >? batch_size a then
    do d1 <- for_range (range_len (number_of_train_steps a)) (train_step a) d;
    Ok (record_losses d1)
  else Ok d.

(** Lines 258-269: one iteration of the evaluation loop.  The call names
    only the state and [mdp_type]; ddpg.py is missing, and by the signature
    the spec gives, select_action(state, action_noise=None, param_noise=None,
    mdp_type), the two noise parameters take their default, [None]. *)
Definition eval_step (d : Driver) : Driver :=
  let '(ag1, _, out) := select_action (agent d) (eval_state d) None None mdp in
  let action := as_tensor out in
  let '(sim1, (next_eval_state, reward, done, trunc, info)) :=
    env_step eval_env (sim d) action in
  let eval_reward1 := scalar_add (eval_reward d) reward in
  let tr1 :=
    trace d ++ [EvSelectAction (eval_state d) None None mdp; EvEnvStep eval_env action] in
  if done || trunc then
    let '(sim2, (s0, _)) := env_reset eval_env sim1 in
    {| agent := ag1; ounoise := ounoise d; pnoise := pnoise d; sim := sim2;
       state := state d; eval_state := s0; eval_reward := scalar_zero;
       episode_reward := episode_reward d; total_steps := total_steps d;
       train_steps := train_steps d; ep := ep d; hacky_indict := hacky_indict d;
       hacky_store := hacky_store d;
       results_dict := add_eval_reward (results_dict d) (total_steps d, eval_reward1);
       value_losses := value_losses d; policy_losses := policy_losses d;
       adversary_losses := adversary_losses d;
       trace := tr1 ++ [EvEnvReset eval_env] |}
  else
    {| agent := ag1; ounoise := ounoise d; pnoise := pnoise d; sim := sim1;
       state := state d; eval_state := next_eval_state; eval_reward := eval_reward1;
       episode_reward := episode_reward d; total_steps := total_steps d;
       train_steps := train_steps d; ep := ep d; hacky_indict := hacky_indict d;
       hacky_store := hacky_store d; results_dict := results_dict d;
       value_losses := value_losses d; policy_losses := policy_losses d;
       adversary_losses := adversary_losses d;
       trace := tr1 |}.

Definition log_events (d : Driver) (evs : list Event) : Driver :=
  {| agent := agent d; ounoise := ounoise d; pnoise := pnoise d; sim := sim d;
     state := state d; eval_state := eval_state d; eval_reward := eval_reward d;
     episode_reward := episode_reward d; total_steps := total_steps d;
     train_steps := train_steps d; ep := ep d; hacky_indict := hacky_indict d;
     hacky_store := hacky_store d; results_dict := results_dict d;
     value_losses := value_losses d; policy_losses := policy_losses d;
     adversary_losses := adversary_losses d;
     trace := trace d ++ evs |}.

(** Lines 270-275. *)
Definition save (d : Driver) : Driver :=
  log_events d [EvSaveModel; EvPickleDump (results_dict d); EvVisPlot].

Definition rollout_phase (a : Args) (d : Driver) : Driver :=
  Nat.iter (range_len (num_rollout_steps a)) (rollout_step a) d.

Definition eval_phase (a : Args) (d : Driver) : Driver :=
  Nat.iter (range_len (num_rollout_steps a)) eval_step d.

(** Lines 190-275: the body of the cycle loop. *)
Definition cycle (a : Args) (d : Driver) : result Driver :=
  let d1 := rollout_phase a d in
  do d2 <- update_phase a d1;
  let d3 := eval_phase a d2 in
  Ok (save d3).

(** Lines 189-275. *)
Definition epoch (a : Args) (d : Driver) : result Driver :=
  for_range (range_len (num_epochs_cycles a)) (cycle a) d.

Definition training (a : Args) (nb_epochs : Z) (d : Driver) : result Driver :=
  for_range (range_len nb_epochs) (epoch a) d.

(** Lines 142-145: [try: os.makedirs(base_dir)] under a bare [except: pass]. *)
Definition make_base_dir (p : string) : result unit :=
  match os_makedirs p with
  | Ok _ => Ok tt
  | Raise _ => Ok tt
  end.

(** Lines 282-283. *)
Definition make_dataset_dir (p : string) : result unit :=
  if os_path_exists p then Ok tt else os_makedirs p.

Definition empty_results : Results :=
  {| r_eval_rewards := []; r_value_losses := []; r_policy_losses := [];
     r_adversary_losses := []; r_train_rewards := [] |}.

(** Lines 95-187: everything before the epoch loop, on derived [args]. *)
Definition setup (a : Args) : result (Z * Driver) :=
  let sim0 := gym_make (env_name a) (seed a) in
  do _ <- set_seed_everywhere (seed a);
  let agent0 := DDPG a in
  do _ <- make_base_dir (base_dir_name a);
  let ounoise0 := if ou_noise a then Some (OrnsteinUhlenbeckActionNoise a) else None in
  let pnoise0 := if param_noise a then Some (AdaptiveParamNoiseSpec a) else None in
  do nb_epochs <- compute_nb_epochs a;
  let '(sim1, (s0, _)) := env_reset env sim0 in
  let '(sim2, (es0, _)) := env_reset eval_env sim1 in
  let '(agent1, ounoise1) := reset_noise (agent_train agent0) ounoise0 pnoise0 in
  Ok (nb_epochs,
      {| agent := agent1; ounoise := ounoise1; pnoise := pnoise0; sim := sim2;
         state := s0; eval_state := es0; eval_reward := scalar_zero;
         episode_reward := scalar_zero; total_steps := 0; train_steps := 0; ep := 0;
         hacky_indict := None; hacky_store := ∅; results_dict := empty_results;
         value_losses := []; policy_losses := []; adversary_losses := [];
         trace := [EvEnvReset env; EvEnvReset eval_env] |}).

(** The script: lines 87-287. *)
Definition main (c : Cli) : result Driver :=
  do a <- derive_args (parse_args c);
  do p <- setup a;
  let '(nb_epochs, d0) := p in
  do d <- training (incr_ratio a) nb_epochs d0;
  do _ <- make_dataset_dir dataset_dir_name;
  Ok (log_events d [EvJsonDump (hacky_store d)]).

End Driver.

(** ** Reading a trace, and the dataset as a function of the rollout *)

Section Observations.
Context `{W : World}.

Definition update_flags (tr : list Event) : list bool :=
  omap (fun ev => match ev with
                  | EvUpdateParameters _ _ adv _ _ => Some adv
                  | _ => None
                  end) tr.

Definition update_losses (tr : list Event) : list (Scalar * Scalar * Scalar) :=
  omap (fun ev => match ev with
                  | EvUpdateParameters _ _ _ _ l => Some l
                  | _ => None
                  end) tr.

Definition adapt_dists (tr : list Event) : list Scalar :=
  omap (fun ev => match ev with EvAdapt x => Some x | _ => None end) tr.

Definition rollout_obs (tr : list Event) : list StepObs :=
  omap (fun ev => match ev with EvRollout o => Some o | _ => None end) tr.

Definition json_dumps (tr : list Event) : list (gmap Z (list Indict)) :=
  omap (fun ev => match ev with EvJsonDump m => Some m | _ => None end) tr.

Definition select_calls (tr : list Event)
  : list (Obs * option OUNoise * option ParamNoise * method) :=
  omap (fun ev => match ev with
                  | EvSelectAction s an pn m => Some (s, an, pn, m)
                  | _ => None
                  end) tr.

(** The environments a trace steps or resets. *)
Definition envs_touched (tr : list Event) : list Env :=
  omap (fun ev => match ev with
                  | EvEnvStep e _ => Some e
                  | EvEnvReset e => Some e
                  | _ => None
                  end) tr.

(** What a state must satisfy for an update step not to raise: the two
    moduli are not zero, and the noise object exists when the flag is set. *)
Definition runnable (a : Args) (d : Driver) : Prop :=
  param_noise_interval a <> 0 /\ ratio a <> 0 /\
  (param_noise a = true -> is_Some (pnoise d)).

(** A step that ends its episode. *)
Definition terminal (o : StepObs) : bool := so_done o || so_trunc o.

(** The rollout cut into episodes, the last one being the one still open. *)
Fixpoint episodes (obs : list StepObs) : list (list StepObs) :=
  match obs with
  | [] => [[]]
  | o :: rest =>
      if terminal o then [o] :: episodes rest
      else (o :: hd [] (episodes rest)) :: tl (episodes rest)
  end.

(** The episode numbered [j] when the first of [es] has number [k]. *)
Fixpoint episode_at (k : Z) (es : list (list StepObs)) (j : Z) : list StepObs :=
  match es with
  | [] => []
  | e :: rest => if j =? k then e else episode_at (k + 1) rest j
  end.

Definition indict_of (o : StepObs) : Indict :=
  {| i_reward := scalar_str (so_reward o); i_state := so_state o;
     i_done := so_done o; i_info := so_info o;
     i_pr_action := None; i_adv_action := None |}.

(** A step's reward, state, flag and info with the mean actions of the
    step that follows it. *)
Definition mk_record (o next : StepObs) : Indict :=
  set_actions (indict_of o) (so_pr_mu next) (so_adv_mu next).

(** One record per pair of consecutive steps of an episode. *)
Fixpoint pair_up (e : list StepObs) : list Indict :=
  match e with
  | [] => []
  | o :: rest =>
      match rest with
      | [] => []
      | next :: _ => mk_record o next :: pair_up rest
      end
  end.

Definition records_at (store : gmap Z (list Indict)) (j : Z) : list Indict :=
  default [] (store !! j).

Definition all_records (store : gmap Z (list Indict)) : list Indict :=
  concat (snd <$> map_to_list store).

(** Lines 229-235 as values: the sampled batch, its states, its stored
    actions, the actions of the unperturbed policy on those states, and the
    distance between the two. *)
Definition sampled_batch (a : Args) (d : Driver)
  : list (Obs * Action * bool * Obs * Scalar) :=
  (memory_sample (agent d) (batch_size a)).2.

Definition batch_states (a : Args) (d : Driver) : Obs :=
  stack_obs (map (fun t => t.1.1.1.1) (sampled_batch a d)).

Definition batch_actions (a : Args) (d : Driver) : Action :=
  stack_act (map (fun t => t.1.1.1.2) (sampled_batch a d)).

Definition unperturbed_on_batch (a : Args) (d : Driver) : Action :=
  as_tensor
    (select_action (memory_sample (agent d) (batch_size a)).1
       (batch_states a d) None None mdp).2.

Definition param_noise_distance (a : Args) (d : Driver) : Scalar :=
  ddpg_distance_metric (batch_actions a d) (unperturbed_on_batch a d).

(** The distance as the specification words it: between the actions the
    perturbed policy gives on the states of the batch (a selection with the
    parameter-noise object and no action noise) and the actions of the
    unperturbed policy on those states. *)
Definition perturbed_on_batch (a : Args) (d : Driver) : Action :=
  as_tensor
    (select_action (memory_sample (agent d) (batch_size a)).1
       (batch_states a d) None (pnoise d) mdp).2.

Definition spec_param_noise_distance (a : Args) (d : Driver) : Scalar :=
  ddpg_distance_metric (perturbed_on_batch a d) (unperturbed_on_batch a d).

(** The boolean of line 238 on a modulus that is not zero. *)
Definition adversary_turn (ts r : Z) (flip : bool) : bool :=
  if flip then negb (ts mod r =? 0) else (ts mod r =? 0).

(** What the adaptation branch may change: the agent, the noise object
    and the trace, where it adds no update, no rollout and no dump. *)
Definition adapt_frame (d d1 : Driver) : Prop :=
  train_steps d1 = train_steps d /\ total_steps d1 = total_steps d /\
  results_dict d1 = results_dict d /\
  (ep d1, hacky_indict d1, hacky_store d1) = (ep d, hacky_indict d, hacky_store d) /\
  (sim d1, state d1, eval_state d1) = (sim d, state d, eval_state d) /\
  (value_losses d1, policy_losses d1, adversary_losses d1) =
  (value_losses d, policy_losses d, adversary_losses d) /\
  (is_Some (pnoise d) -> is_Some (pnoise d1)) /\
  update_flags (trace d1) = update_flags (trace d) /\
  update_losses (trace d1) = update_losses (trace d) /\
  rollout_obs (trace d1) = rollout_obs (trace d) /\
  json_dumps (trace d1) = json_dumps (trace d).

(** The loss series of a results record. *)
Definition loss_series (r : Results)
  : list (Z * Scalar) * list (Z * Scalar) * list (Z * Scalar) :=
  (r_value_losses r, r_policy_losses r, r_adversary_losses r).

Definition accumulators (d : Driver) : list Scalar * list Scalar * list Scalar :=
  (value_losses d, policy_losses d, adversary_losses d).

Definition dataset_vars (d : Driver) : Z * option Indict * gmap Z (list Indict) :=
  (ep d, hacky_indict d, hacky_store d).

(** [d'] is reached from [d] by [k] rollout steps and any number of whole
    update and evaluation phases: still able to run, accumulators empty. *)
Definition advances (a : Args) (k : nat) (d d' : Driver) : Prop :=
  runnable a d' /\ accumulators d' = ([], [], []) /\
  total_steps d' = total_steps d + Z.of_nat k /\
  exists os,
    rollout_obs (trace d') = rollout_obs (trace d) ++ os /\
    length os = k /\
    dataset_vars d' = fold_left dataset_step os (dataset_vars d) /\
    json_dumps (trace d') = json_dumps (trace d).

(** The dataset variables are the fold of [dataset_step] over the rollout
    steps made so far, and nothing has been dumped yet. *)
Definition dataset_inv (d : Driver) : Prop :=
  dataset_vars d = fold_left dataset_step (rollout_obs (trace d)) (0, None, ∅) /\
  json_dumps (trace d) = [] /\
  total_steps d = Z.of_nat (length (rollout_obs (trace d))).

(** The steps still to be paired: a pending step, then the coming ones. *)
Definition with_pending (prev : option StepObs) (obs : list StepObs) : list StepObs :=
  match prev with
  | Some p => p :: obs
  | None => obs
  end.

(** A step that touches neither the dataset, nor the step counter, nor
    the rollout and dump events of the trace. *)
Definition quiet (d d' : Driver) : Prop :=
  dataset_vars d' = dataset_vars d /\
  rollout_obs (trace d') = rollout_obs (trace d) /\
  json_dumps (trace d') = json_dumps (trace d) /\
  total_steps d' = total_steps d.

End Observations.

(** ** Paths

    Python strings as [string]; [find], the slice [s[:stop]] and
    [endswith] as Python defines them. *)

Definition repo_name : string := "action-robust-decision-transformer".

Definition arrl_subdir : string := "/codebase/baselines/arrl".

Fixpoint str_take (n : nat) (s : string) : string :=
  match n, s with
  | O, _ => EmptyString
  | S _, EmptyString => EmptyString
  | S k, String c rest => String c (str_take k rest)
  end.

Fixpoint str_drop (n : nat) (s : string) : string :=
  match n, s with
  | O, _ => s
  | S _, EmptyString => EmptyString
  | S k, String _ rest => str_drop k rest
  end.

(** [s.find(x)] searched from a position numbered [i]: the lowest index
    at which [x] starts, or -1. *)
Fixpoint str_find_from (x s : string) (i : Z) : Z :=
  if String.prefix x s then i
  else
    match s with
    | EmptyString => -1
    | String _ rest => str_find_from x rest (i + 1)
    end.

Definition str_find (s x : string) : Z := str_find_from x s 0.

(** [s[:stop]]: a negative [stop] counts from the end, and both ends are
    clamped to the string. *)
Definition py_slice_to (s : string) (stop : Z) : string :=
  if stop <? 0
  then str_take (Z.to_nat (Z.of_nat (String.length s) + stop)) s
  else str_take (Z.to_nat stop) s.

Definition str_endswith (s x : string) : bool :=
  (String.length x <=? String.length s)%nat &&
  String.eqb (str_drop (String.length s - String.length x) s) x.

(** Lines 32-37.  [git] is what [git rev-parse --show-toplevel] gave,
    stripped and decoded, or the exception the call raised; [cwd] is
    [os.getcwd()]. *)
Definition find_root_dir (git : result string) (cwd : string) : string :=
  let root_dir :=
    match git with
    | Ok out => out
    | Raise _ =>
        py_slice_to cwd (str_find cwd repo_name + Z.of_nat (String.length repo_name))
    end in
  String.append root_dir
    (String.append
       (if str_endswith root_dir repo_name then EmptyString
        else String.append "/" repo_name)
       arrl_subdir).

Definition method_str (m : method) : string :=
  match m with
  | mdp => "mdp"
  | pr_mdp => "pr_mdp"
  | nr_mdp => "nr_mdp"
  end.

(** [str] of an [int], and of a seed that may be [None]. *)
Definition str_of_Z (z : Z) : string := NilZero.string_of_int (Z.to_int z).

Definition str_of_seed (s : option Z) : string :=
  match s with
  | Some z => str_of_Z z
  | None => "None"
  end.

(** Lines 113-141, on derived arguments (line 90 has filled
    [exploration_method]).  [root] is the value of [find_root_dir()] and
    [alpha] the text of [str(args.alpha)], a float. *)
Definition base_dir (root alpha : string) (a : Args) : string :=
  let b0 := String.append root (String.append "/models/" (String.append (env_name a) "/")) in
  let b1 :=
    String.append b0
      (if param_noise a then "param_noise/"
       else if ou_noise a then "ou_noise/"
       else "no_noise/") in
  let tail :=
    String.append "_" (String.append alpha
      (String.append "_" (String.append (str_of_Z (ratio a)) "/"))) in
  let b2 :=
    if method_eqb (exploration_of a) (method_ a) then
      if negb (method_eqb (method_ a) mdp) then
        String.append
          (if flip_ratio a then String.append b1 "flip_ratio_" else b1)
          (String.append (method_str (method_ a)) tail)
      else String.append b1 "non_robust/"
    else
      if negb (method_eqb (method_ a) mdp) then
        String.append
          (if flip_ratio a then String.append b1 "flip_ratio_" else b1)
          (String.append "alternative_" (String.append (method_str (method_ a)) tail))
      else
        String.append b1
          (String.append "alternative_non_robust_"
             (String.append (method_str (exploration_of a)) tail)) in
  String.append b2 (str_of_seed (seed a)).

(** How many calls of a list of update flags train the adversary. *)
Fixpoint count_true (l : list bool) : nat :=
  match l with
  | [] => O
  | b :: rest => ((if b then 1 else 0) + count_true rest)%nat
  end.

(** ** More readings of a state *)

Section Bookkeeping.
Context `{W : World}.

Definition pickle_dumps (tr : list Event) : list Results :=
  omap (fun ev => match ev with EvPickleDump r => Some r | _ => None end) tr.

Definition save_calls (tr : list Event) : nat :=
  length (omap (fun ev => match ev with EvSaveModel => Some tt | _ => None end) tr).

Fixpoint count_terminal (obs : list StepObs) : nat :=
  match obs with
  | [] => O
  | o :: rest => ((if terminal o then 1 else 0) + count_terminal rest)%nat
  end.

(** The flag the schedule gives to the update call numbered [i] of a run. *)
Definition scheduled (a : Args) (i : nat) : bool :=
  adversary_turn (Z.of_nat i) (ratio a) (flip_ratio a).

(** A series of (step, value) entries in step order, no step beyond [n]. *)
Fixpoint ordered_upto (n : Z) (l : list (Z * Scalar)) : Prop :=
  match l with
  | [] => True
  | e :: rest =>
      Forall (fun e' => e.1 <= e'.1) rest /\ e.1 <= n /\ ordered_upto n rest
  end.

(** A record as it can leave the run: not the end of an episode, and
    with both mean actions filled in. *)
Definition complete_record (r : Indict) : Prop :=
  i_done r = false /\ is_Some (i_pr_action r) /\ is_Some (i_adv_action r).

(** What every state of a run satisfies, whatever its arguments. *)
Definition run_inv (a : Args) (d : Driver) : Prop :=
  (exists n, train_steps d = Z.of_nat n /\
             update_flags (trace d) = map (scheduled a) (seq 0 n)) /\
  ep d = Z.of_nat (length (r_train_rewards (results_dict d))) /\
  ordered_upto (total_steps d) (r_train_rewards (results_dict d)) /\
  ordered_upto (total_steps d) (r_eval_rewards (results_dict d)) /\
  ordered_upto (total_steps d) (r_value_losses (results_dict d)) /\
  map fst (r_policy_losses (results_dict d)) = map fst (r_value_losses (results_dict d)) /\
  map fst (r_adversary_losses (results_dict d)) = map fst (r_value_losses (results_dict d)).

(** At the end of a cycle the results on disk are the results in memory. *)
Definition results_saved (d : Driver) : Prop :=
  last (pickle_dumps (trace d)) = Some (results_dict d).

(** The world [w] on another host: [ex] answers [os.path.exists] and [mk]
    is [os.makedirs]. *)
Definition on_host (w : World) (ex : string -> bool) (mk : string -> result unit)
  : World := {|
  Obs := @Obs w; Action := @Action w; Scalar := @Scalar w; Info := @Info w;
  Sim := @Sim w; Agent := @Agent w; OUNoise := @OUNoise w;
  ParamNoise := @ParamNoise w; SelectOut := @SelectOut w;
  gym_make := @gym_make w; gym_step := @gym_step w; gym_reset := @gym_reset w;
  normalize := @normalize w; DDPG := @DDPG w; select_action := @select_action w;
  unpack3 := @unpack3 w; as_tensor := @as_tensor w;
  store_transition := @store_transition w; memory_len := @memory_len w;
  memory_sample := @memory_sample w; update_parameters := @update_parameters w;
  perturb_actor_parameters := @perturb_actor_parameters w;
  OrnsteinUhlenbeckActionNoise := @OrnsteinUhlenbeckActionNoise w;
  ou_reset := @ou_reset w; AdaptiveParamNoiseSpec := @AdaptiveParamNoiseSpec w;
  adapt := @adapt w; ddpg_distance_metric := @ddpg_distance_metric w;
  stack_obs := @stack_obs w; stack_act := @stack_act w; np_mean := @np_mean w;
  np_mean_scalar := @np_mean_scalar w; scalar_add := @scalar_add w;
  scalar_zero := @scalar_zero w; scalar_str := @scalar_str w;
  agent_train := @agent_train w; base_dir_name := @base_dir_name w;
  dataset_dir_name := @dataset_dir_name w;
  os_path_exists := ex; os_makedirs := mk
|}.

(** A world with another agent behind [select_action]. *)
Definition with_select_action (w : World)
  (sel : @Agent w -> @Obs w -> option (@OUNoise w) -> option (@ParamNoise w) ->
         method -> @Agent w * option (@OUNoise w) * @SelectOut w) : World := {|
  Obs := @Obs w; Action := @Action w; Scalar := @Scalar w; Info := @Info w;
  Sim := @Sim w; Agent := @Agent w; OUNoise := @OUNoise w;
  ParamNoise := @ParamNoise w; SelectOut := @SelectOut w;
  gym_make := @gym_make w; gym_step := @gym_step w; gym_reset := @gym_reset w;
  normalize := @normalize w; DDPG := @DDPG w; select_action := sel;
  unpack3 := @unpack3 w; as_tensor := @as_tensor w;
  store_transition := @store_transition w; memory_len := @memory_len w;
  memory_sample := @memory_sample w; update_parameters := @update_parameters w;
  perturb_actor_parameters := @perturb_actor_parameters w;
  OrnsteinUhlenbeckActionNoise := @OrnsteinUhlenbeckActionNoise w;
  ou_reset := @ou_reset w; AdaptiveParamNoiseSpec := @AdaptiveParamNoiseSpec w;
  adapt := @adapt w; ddpg_distance_metric := @ddpg_distance_metric w;
  stack_obs := @stack_obs w; stack_act := @stack_act w; np_mean := @np_mean w;
  np_mean_scalar := @np_mean_scalar w; scalar_add := @scalar_add w;
  scalar_zero := @scalar_zero w; scalar_str := @scalar_str w;
  agent_train := @agent_train w; base_dir_name := @base_dir_name w;
  dataset_dir_name := @dataset_dir_name w;
  os_path_exists := @os_path_exists w; os_makedirs := @os_makedirs w
|}.

(** Dataset variables that can only hold complete records: the episode
    index is not negative, a pending dict is not the end of an episode,
    and every key of the store is an episode index reached so far, with
    records that are complete and at least one of them. *)
Definition dataset_ok (h : Z * option Indict * gmap Z (list Indict)) : Prop :=
  0 <= h.1.1 /\
  (forall p, h.1.2 = Some p -> i_done p = false) /\
  (forall j l, h.2 !! j = Some l ->
     0 <= j <= h.1.1 /\ l <> [] /\ Forall complete_record l).

(** How set-up ended: with a number of epochs, or with an exception. *)
Definition setup_outcome (r : result (Z * Driver)) : Z + exn :=
  match r with
  | Ok p => inl p.1
  | Raise e => inr e
  end.

(** The rollout steps a state has behind it, counted on its trace. *)
Definition rollout_steps_made (d : Driver) : Z :=
  Z.of_nat (length (rollout_obs (trace d))).

End Bookkeeping.

(** ** A small world to run the driver on

    The simulator is a counter: a step moves it by one and reports the new
    position; it terminates an episode at every multiple of [toy_horizon].
    The agent answers a state [s] with the action [s], protagonist mean
    [10 * s] and adversary mean [100 * s], and keeps its replay memory as a
    list. *)

Module Toy.

Definition toy_horizon : Z := 3.

Definition toy_step (s a : Z) : Z * (Z * Z * bool * bool * unit) :=
  (s + 1, (s + 1, a, (s + 1) mod toy_horizon =? 0, false, tt)).

Definition toy_world (mk : string -> result unit) : World := {|
  Obs := Z; Action := Z; Scalar := Z; Info := unit; Sim := Z;
  Agent := list (Z * Z * bool * Z * Z);
  OUNoise := unit; ParamNoise := Z; SelectOut := Z * Z * Z;
  gym_make := fun _ _ => 0;
  gym_step := toy_step;
  gym_reset := fun s => (s, (s, tt));
  normalize := fun a => a;
  DDPG := fun _ => [];
  select_action := fun ag s ou _ _ => (ag, ou, (s, 10 * s, 100 * s));
  unpack3 := fun o => o;
  as_tensor := fun o => o.1.1;
  store_transition := fun ag s a m s' r => ag ++ [(s, a, m, s', r)];
  memory_len := fun ag => Z.of_nat (length ag);
  memory_sample := fun ag n => (ag, take (Z.to_nat n) ag);
  update_parameters := fun ag _ _ adv _ => (ag, (1, 2, if adv then 3 else 0));
  perturb_actor_parameters := fun ag _ => ag;
  OrnsteinUhlenbeckActionNoise := fun _ => tt;
  ou_reset := fun u => u;
  AdaptiveParamNoiseSpec := fun _ => 0;
  adapt := fun pn dist => pn + dist;
  ddpg_distance_metric := fun x y => Z.abs (x - y);
  stack_obs := fun l => foldr Z.add 0 l;
  stack_act := fun l => foldr Z.add 0 l;
  np_mean := fun l => foldr Z.add 0 l;
  np_mean_scalar := fun x => x;
  scalar_add := Z.add;
  scalar_zero := 0;
  scalar_str := fun _ => ""%string;
  agent_train := fun ag => ag;
  base_dir_name := fun _ => "models"%string;
  dataset_dir_name := "datasets"%string;
  os_path_exists := fun _ => true;
  os_makedirs := mk
|}.

(** A host where every directory can be created, and one where the
    creation is refused. *)
Definition friendly : World := toy_world (fun _ => Ok tt).
Definition read_only : World := toy_world (fun _ => Raise PermissionError).

Definition small_cli : Cli := {|
  cli_env_name := None; cli_ou_noise := false; cli_param_noise := true;
  cli_batch_size := Some 2; cli_num_epochs := None;
  cli_num_epochs_cycles := Some 2; cli_num_rollout_steps := Some 4;
  cli_num_steps := Some 17; cli_param_noise_interval := Some 2;
  cli_number_of_train_steps := Some 3; cli_method := None;
  cli_ratio := Some 5; cli_flip_ratio := false;
  cli_exploration_method := None; cli_seed := Some 0
|}.


(** Derived arguments of a small run. *)
Definition args0 : Args := {|
  env_name := "HalfCheetah-v4"; ou_noise := true; param_noise := true;
  batch_size := 2; num_epochs := None; num_epochs_cycles := 2;
  num_rollout_steps := 4; num_steps := Some 17; param_noise_interval := 2;
  number_of_train_steps := 3; method_ := nr_mdp; ratio := 1; flip_ratio := false;
  exploration_method := Some nr_mdp; seed := Some 0
|}.

(** The state in which the epoch loop starts, with a given replay memory. *)
Definition with_memory (m : list (Z * Z * bool * Z * Z)) : @Driver friendly := {|
  agent := (m : @Agent friendly);
  ounoise := Some (tt : @OUNoise friendly); pnoise := Some (0 : @ParamNoise friendly);
  sim := (0 : @Sim friendly);
  state := (0 : @Obs friendly); eval_state := (0 : @Obs friendly);
  eval_reward := (0 : @Scalar friendly); episode_reward := (0 : @Scalar friendly);
  total_steps := 0; train_steps := 0; ep := 0;
  hacky_indict := None; hacky_store := ∅; results_dict := empty_results;
  value_losses := []; policy_losses := []; adversary_losses := [];
  trace := []
|}.

Definition start : @Driver friendly := with_memory [].

(** As many transitions stored as one batch holds, and one more. *)
Definition two_stored : @Driver friendly :=
  with_memory [(0, 0, true, 1, 0); (1, 1, true, 2, 1)].

Definition three_stored : @Driver friendly :=
  with_memory [(0, 0, true, 1, 0); (1, 1, true, 2, 1); (2, 2, false, 3, 2)].

(** The state and protagonist mean of the first rollout step of a trace,
    and the state and protagonist mean held by the first record of
    episode 0. *)
Definition first_step (d : @Driver friendly) : option (Z * Z) :=
  match @rollout_obs friendly (trace d) with
  | o :: _ => Some (@so_state friendly o, @so_pr_mu friendly o)
  | [] => None
  end.

Definition first_record (d : @Driver friendly) : option (Z * option Z) :=
  match @records_at friendly (hacky_store d) 0 with
  | r :: _ => Some (@i_state friendly r, @i_pr_action friendly r)
  | [] => None
  end.

(** A view of how a run ended: [None] when it raised. *)
Definition outcome {A : Type} (f : @Driver friendly -> A) (r : result (@Driver friendly))
  : option A :=
  match r with
  | Ok d => Some (f d)
  | Raise _ => None
  end.

(** A host without a datasets directory that refuses to make one, and
    makes any other directory. *)
Definition no_datasets : World :=
  on_host friendly (fun _ => false)
    (fun p => if String.eqb p "datasets" then Raise PermissionError else Ok tt).

(** Command lines: an environment the driver does not know, a number of
    epochs, and rollouts of no step. *)
Definition with_cli (env : option string) (epochs rollout interval : option Z) : Cli := {|
  cli_env_name := env; cli_ou_noise := false; cli_param_noise := true;
  cli_batch_size := Some 2; cli_num_epochs := epochs;
  cli_num_epochs_cycles := Some 2; cli_num_rollout_steps := rollout;
  cli_num_steps := Some 17; cli_param_noise_interval := interval;
  cli_number_of_train_steps := Some 3; cli_method := None;
  cli_ratio := Some 5; cli_flip_ratio := false;
  cli_exploration_method := None; cli_seed := Some 0
|}.

Definition ant_cli : Cli := with_cli (Some "ant"%string) None (Some 4) (Some 2).
Definition epochs_cli : Cli := with_cli None (Some 3) (Some 4) (Some 2).
Definition no_rollout_cli : Cli := with_cli None None (Some 0) (Some 2).

(** Arguments with a cadence of zero for the parameter noise, which is
    switched off. *)
Definition zero_interval_args : Args := {|
  env_name := "HalfCheetah-v4"; ou_noise := true; param_noise := false;
  batch_size := 2; num_epochs := None; num_epochs_cycles := 2;
  num_rollout_steps := 4; num_steps := Some 17; param_noise_interval := 0;
  number_of_train_steps := 3; method_ := nr_mdp; ratio := 2; flip_ratio := false;
  exploration_method := Some nr_mdp; seed := Some 0
|}.

(** [args0] with flip_ratio set. *)
Definition args0_flipped : Args := {|
  env_name := "HalfCheetah-v4"; ou_noise := true; param_noise := true;
  batch_size := 2; num_epochs := None; num_epochs_cycles := 2;
  num_rollout_steps := 4; num_steps := Some 17; param_noise_interval := 2;
  number_of_train_steps := 3; method_ := nr_mdp; ratio := 1; flip_ratio := true;
  exploration_method := Some nr_mdp; seed := Some 0
|}.

(** An agent whose selection shows the noise it is given: the protagonist
    mean is [10 * s], one more under parameter noise; the adversary mean is
    [100 * s]; the action is the protagonist mean for [mdp], the adversary
    mean for [pr_mdp] and their sum for [nr_mdp], seven more under action
    noise. *)
Definition noisy_select (ag : list (Z * Z * bool * Z * Z)) (s : Z)
  (ou : option unit) (pn : option Z) (m : method)
  : list (Z * Z * bool * Z * Z) * option unit * (Z * Z * Z) :=
  let pr := 10 * s + match pn with Some _ => 1 | None => 0 end in
  let adv := 100 * s in
  let mixed := match m with mdp => pr | pr_mdp => adv | nr_mdp => pr + adv end in
  (ag, ou, (mixed + match ou with Some _ => 7 | None => 0 end, pr, adv)).

Definition noisy : World := with_select_action friendly noisy_select.

(** The state in which the epoch loop starts in that world, and the state
    after the first rollout phase of [args0]. *)
Definition noisy_start : @Driver noisy := {|
  agent := ([] : @Agent noisy);
  ounoise := Some (tt : @OUNoise noisy); pnoise := Some (0 : @ParamNoise noisy);
  sim := (0 : @Sim noisy);
  state := (0 : @Obs noisy); eval_state := (0 : @Obs noisy);
  eval_reward := (0 : @Scalar noisy); episode_reward := (0 : @Scalar noisy);
  total_steps := 0; train_steps := 0; ep := 0;
  hacky_indict := None; hacky_store := ∅; results_dict := empty_results;
  value_losses := []; policy_losses := []; adversary_losses := [];
  trace := []
|}.

Definition noisy_rolled : @Driver noisy := @rollout_phase noisy args0 noisy_start.

(** The distances one update step hands to [adapt]. *)
Definition fed_distances (d : @Driver noisy) : list Z :=
  match @train_step noisy args0 d with
  | Ok d' => @adapt_dists noisy (trace d')
  | Raise _ => []
  end.

(** [args0] with a negative number of steps. *)
Definition negative_steps_args : Args := {|
  env_name := "HalfCheetah-v4"; ou_noise := true; param_noise := true;
  batch_size := 2; num_epochs := None; num_epochs_cycles := 2;
  num_rollout_steps := 4; num_steps := Some (-1); param_noise_interval := 2;
  number_of_train_steps := 3; method_ := nr_mdp; ratio := 1; flip_ratio := false;
  exploration_method := Some nr_mdp; seed := Some 0
|}.

(** Command lines without a seed, and with one that numpy refuses. *)
Definition with_seed (s : option Z) : Cli := {|
  cli_env_name := None; cli_ou_noise := false; cli_param_noise := true;
  cli_batch_size := Some 2; cli_num_epochs := None;
  cli_num_epochs_cycles := Some 2; cli_num_rollout_steps := Some 4;
  cli_num_steps := Some 17; cli_param_noise_interval := Some 2;
  cli_number_of_train_steps := Some 3; cli_method := None;
  cli_ratio := Some 5; cli_flip_ratio := false;
  cli_exploration_method := None; cli_seed := s
|}.

Definition seedless_cli : Cli := with_seed None.
Definition negative_seed_cli : Cli := with_seed (Some (-1)).
End Toy.

Ltac break_let :=
  match goal with
  | |- context [let '(_, _) := ?e in _] => destruct e eqn:?
  | H : context [let '(_, _) := ?e in _] |- _ => destruct e eqn:?
  end.

Ltac break_lets := repeat (break_let; cbn [fst snd] in *).

(** ** Arithmetic and loops *)

Lemma py_mod_nonzero (x y : Z) : y <> 0 -> py_mod x y = Ok (x mod y).
Proof.
  intros Hy. unfold py_mod. destruct (Z.eqb_spec y 0); [contradiction | reflexivity].
Qed.

Lemma py_floordiv_nonzero (x y : Z) : y <> 0 -> py_floordiv x y = Ok (x / y).
Proof.
  intros Hy. unfold py_floordiv. destruct (Z.eqb_spec y 0); [contradiction | reflexivity].
Qed.

Lemma adversary_update_nonzero (ts r : Z) (flip : bool) :
  r <> 0 ->
  adversary_update ts r flip =
  Ok (if flip then negb (ts mod r =? 0) else (ts mod r =? 0)).
Proof.
  intros Hr. unfold adversary_update. rewrite (py_mod_nonzero ts r Hr). simpl.
  destruct (ts mod r =? 0), flip; reflexivity.
Qed.

(** An invariant of the body is an invariant of the loop. *)
Lemma for_range_inv {S : Type} (P : S -> Prop) (body : S -> result S) :
  (forall s s', P s -> body s = Ok s' -> P s') ->
  forall n s s', P s -> for_range n body s = Ok s' -> P s'.
Proof.
  intros Hbody n. induction n as [| n IH]; intros s s' Hs Hrun; simpl in Hrun.
  - injection Hrun as <-. exact Hs.
  - destruct (body s) as [s1 | e] eqn:Hb; simpl in Hrun; [| discriminate].
    eapply IH; [| exact Hrun]. eapply Hbody; eauto.
Qed.

(** ** The steps of the driver *)

Section Steps.
Context `{W : World}.

Lemma update_flags_app (t1 t2 : list Event) :
  update_flags (t1 ++ t2) = update_flags t1 ++ update_flags t2.
Proof. apply omap_app. Qed.

Lemma update_losses_app (t1 t2 : list Event) :
  update_losses (t1 ++ t2) = update_losses t1 ++ update_losses t2.
Proof. apply omap_app. Qed.

Lemma adapt_dists_app (t1 t2 : list Event) :
  adapt_dists (t1 ++ t2) = adapt_dists t1 ++ adapt_dists t2.
Proof. apply omap_app. Qed.

Lemma rollout_obs_app (t1 t2 : list Event) :
  rollout_obs (t1 ++ t2) = rollout_obs t1 ++ rollout_obs t2.
Proof. apply omap_app. Qed.

Lemma json_dumps_app (t1 t2 : list Event) :
  json_dumps (t1 ++ t2) = json_dumps t1 ++ json_dumps t2.
Proof. apply omap_app. Qed.

Lemma select_calls_app (t1 t2 : list Event) :
  select_calls (t1 ++ t2) = select_calls t1 ++ select_calls t2.
Proof. apply omap_app. Qed.

Lemma envs_touched_app (t1 t2 : list Event) :
  envs_touched (t1 ++ t2) = envs_touched t1 ++ envs_touched t2.
Proof. apply omap_app. Qed.

(** The adaptation of lines 229-236, when the noise object exists. *)
Lemma adapt_param_noise_some (a : Args) (d : Driver) (pn : ParamNoise) :
  pnoise d = Some pn ->
  exists d1,
    adapt_param_noise a d = Ok d1 /\
    pnoise d1 = Some (adapt pn (param_noise_distance a d)) /\
    trace d1 = trace d ++ [EvSample (batch_size a);
                           EvSelectAction (batch_states a d) None None mdp;
                           EvAdapt (param_noise_distance a d)] /\
    train_steps d1 = train_steps d /\ total_steps d1 = total_steps d /\
    results_dict d1 = results_dict d /\
    (ep d1, hacky_indict d1, hacky_store d1) = (ep d, hacky_indict d, hacky_store d) /\
    (sim d1, state d1, eval_state d1) = (sim d, state d, eval_state d) /\
    (value_losses d1, policy_losses d1, adversary_losses d1) =
    (value_losses d, policy_losses d, adversary_losses d).
Proof.
  intros Hpn.
  unfold adapt_param_noise, param_noise_distance, unperturbed_on_batch,
    batch_actions, batch_states, sampled_batch.
  break_lets. rewrite Hpn. simpl.
  eexists. split; [reflexivity |]. simpl. repeat split; reflexivity.
Qed.

Lemma maybe_adapt_on (a : Args) (d : Driver) (pn : ParamNoise) :
  param_noise_interval a <> 0 ->
  param_noise a = true -> train_steps d mod param_noise_interval a = 0 ->
  pnoise d = Some pn ->
  maybe_adapt a d = adapt_param_noise a d.
Proof.
  intros Hi Hflag Hmod Hpn. unfold maybe_adapt.
  rewrite (py_mod_nonzero _ _ Hi). simpl. rewrite Hmod, Hflag. reflexivity.
Qed.

Lemma maybe_adapt_off (a : Args) (d : Driver) :
  param_noise_interval a <> 0 ->
  param_noise a = false \/ train_steps d mod param_noise_interval a <> 0 ->
  maybe_adapt a d = Ok d.
Proof.
  intros Hi Hoff. unfold maybe_adapt.
  rewrite (py_mod_nonzero _ _ Hi). simpl.
  destruct Hoff as [-> | Hne].
  - rewrite andb_false_r. reflexivity.
  - destruct (Z.eqb_spec (train_steps d mod param_noise_interval a) 0);
      [contradiction | reflexivity].
Qed.

Lemma maybe_adapt_spec (a : Args) (d : Driver) :
  runnable a d -> exists d1, maybe_adapt a d = Ok d1 /\ adapt_frame d d1.
Proof.
  intros (Hi & _ & Hpn). unfold maybe_adapt.
  rewrite (py_mod_nonzero _ _ Hi). simpl.
  destruct ((train_steps d mod param_noise_interval a =? 0) && param_noise a) eqn:Hc.
  - apply andb_true_iff in Hc as [_ Hflag].
    destruct (Hpn Hflag) as [pn Hsome].
    destruct (adapt_param_noise_some a d pn Hsome)
      as (d1 & -> & Hp1 & Htr & Hts & Htot & Hres & Hds & Hsim & Hacc).
    exists d1. split; [reflexivity |].
    unfold adapt_frame. rewrite Htr, Hp1.
    rewrite update_flags_app, update_losses_app, rollout_obs_app, json_dumps_app.
    simpl. rewrite !app_nil_r. repeat split; auto.
  - exists d. split; [reflexivity |]. unfold adapt_frame. repeat split; auto.
Qed.

(** Lines 238-247 on a modulus that is not zero: one call of
    [update_parameters], with the flag of the schedule. *)
Lemma update_call_spec (a : Args) (d : Driver) :
  ratio a <> 0 ->
  exists d' l,
    update_call a d = Ok d' /\
    trace d' = trace d ++
      [EvUpdateParameters (batch_size a) (method_ a)
         (adversary_turn (train_steps d) (ratio a) (flip_ratio a))
         (exploration_of a) l] /\
    train_steps d' = train_steps d + 1 /\ total_steps d' = total_steps d /\
    results_dict d' = results_dict d /\
    (ep d', hacky_indict d', hacky_store d') = (ep d, hacky_indict d, hacky_store d) /\
    (sim d', state d', eval_state d') = (sim d, state d, eval_state d) /\
    pnoise d' = pnoise d /\
    value_losses d' = value_losses d ++ [l.1.1] /\
    policy_losses d' = policy_losses d ++ [l.1.2] /\
    adversary_losses d' = adversary_losses d ++ [l.2].
Proof.
  intros Hr. unfold update_call.
  rewrite (adversary_update_nonzero _ _ _ Hr). fold (adversary_turn (train_steps d) (ratio a) (flip_ratio a)).
  simpl. break_lets. subst.
  eexists. eexists. split; [reflexivity |]. simpl. repeat split; reflexivity.
Qed.

(** One iteration of the update loop, in a state where it cannot raise. *)
Lemma train_step_spec (a : Args) (d : Driver) :
  runnable a d ->
  exists d' l,
    train_step a d = Ok d' /\ runnable a d' /\
    train_steps d' = train_steps d + 1 /\ total_steps d' = total_steps d /\
    results_dict d' = results_dict d /\
    (ep d', hacky_indict d', hacky_store d') = (ep d, hacky_indict d, hacky_store d) /\
    (sim d', state d', eval_state d') = (sim d, state d, eval_state d) /\
    value_losses d' = value_losses d ++ [l.1.1] /\
    policy_losses d' = policy_losses d ++ [l.1.2] /\
    adversary_losses d' = adversary_losses d ++ [l.2] /\
    update_flags (trace d') = update_flags (trace d) ++
      [adversary_turn (train_steps d) (ratio a) (flip_ratio a)] /\
    update_losses (trace d') = update_losses (trace d) ++ [l] /\
    rollout_obs (trace d') = rollout_obs (trace d) /\
    json_dumps (trace d') = json_dumps (trace d).
Proof.
  intros Hrun. pose proof Hrun as (Hi & Hr & Hpn).
  destruct (maybe_adapt_spec a d Hrun)
    as (d1 & Hd1 & Hts & Htot & Hres & Hds & Hsim & Hacc & Hsome & Hfl & Hlo & Hro & Hjs).
  destruct (update_call_spec a d1 Hr)
    as (d' & l & Hd' & Htr & Hts' & Htot' & Hres' & Hds' & Hsim' & Hpn' & Hv & Hp & Ha).
  exists d', l. unfold train_step. rewrite Hd1. simpl. rewrite Hd'.
  injection Hacc as Hv1 Hp1 Ha1.
  rewrite Htr, update_flags_app, update_losses_app, rollout_obs_app, json_dumps_app.
  simpl. rewrite !app_nil_r.
  repeat split; try congruence.
  intros Hflag. rewrite Hpn'. auto.
Qed.

(** The update loop of one cycle: [n] calls, the flags following the
    schedule from the current [train_steps] on. *)
Lemma train_loop_spec (a : Args) (n : nat) (d : Driver) :
  runnable a d ->
  exists d' ls,
    for_range n (train_step a) d = Ok d' /\ runnable a d' /\
    length ls = n /\
    train_steps d' = train_steps d + Z.of_nat n /\ total_steps d' = total_steps d /\
    results_dict d' = results_dict d /\
    (ep d', hacky_indict d', hacky_store d') = (ep d, hacky_indict d, hacky_store d) /\
    (sim d', state d', eval_state d') = (sim d, state d, eval_state d) /\
    value_losses d' = value_losses d ++ map (fun l => l.1.1) ls /\
    policy_losses d' = policy_losses d ++ map (fun l => l.1.2) ls /\
    adversary_losses d' = adversary_losses d ++ map (fun l => l.2) ls /\
    update_flags (trace d') = update_flags (trace d) ++
      map (fun i => adversary_turn (train_steps d + Z.of_nat i) (ratio a) (flip_ratio a))
          (seq 0 n) /\
    update_losses (trace d') = update_losses (trace d) ++ ls /\
    rollout_obs (trace d') = rollout_obs (trace d) /\
    json_dumps (trace d') = json_dumps (trace d).
Proof.
  revert d. induction n as [| n IH]; intros d Hrun.
  - exists d, []. simpl. rewrite !app_nil_r, Z.add_0_r. repeat split; auto; apply Hrun.
  - destruct (train_step_spec a d Hrun)
      as (d1 & l & Hd1 & Hrun1 & Hts & Htot & Hres & Hds & Hsim & Hv & Hp & Ha
          & Hfl & Hlo & Hro & Hjs).
    destruct (IH d1 Hrun1)
      as (d' & ls & Hd' & Hrun' & Hlen & Hts' & Htot' & Hres' & Hds' & Hsim' & Hv' & Hp'
          & Ha' & Hfl' & Hlo' & Hro' & Hjs').
    exists d', (l :: ls).
    change (for_range (S n) (train_step a) d)
      with (do s' <- train_step a d; for_range n (train_step a) s').
    rewrite Hd1. simpl bind. rewrite Hd'.
    rewrite Hv', Hp', Ha', Hfl', Hlo', Hv, Hp, Ha, Hfl, Hlo, Hts', Hts.
    rewrite <- !app_assoc. simpl.
    rewrite <- seq_shift, map_map.
    split; [reflexivity |]. split; [exact Hrun' |].
    repeat split; try congruence; try lia; try (simpl; congruence).
    f_equal. f_equal; [f_equal; lia |].
    apply map_ext. intros i. f_equal. lia.
Qed.

Lemma update_phase_skipped (a : Args) (d : Driver) :
  memory_len (agent d) <= batch_size a -> update_phase a d = Ok d.
Proof.
  intros Hle. unfold update_phase.
  destruct (Z.gtb_spec (memory_len (agent d)) (batch_size a)); [lia | reflexivity].
Qed.

Lemma update_phase_entered (a : Args) (d : Driver) :
  memory_len (agent d) > batch_size a ->
  update_phase a d =
  do d1 <- for_range (range_len (number_of_train_steps a)) (train_step a) d;
  Ok (record_losses d1).
Proof.
  intros Hgt. unfold update_phase.
  destruct (Z.gtb_spec (memory_len (agent d)) (batch_size a)); [reflexivity | lia].
Qed.

(** One rollout step: what it observes goes through [dataset_step]; it
    counts one step, and it leaves the update and evaluation variables. *)
Lemma rollout_step_spec (a : Args) (d : Driver) :
  exists o,
    rollout_obs (trace (rollout_step a d)) = rollout_obs (trace d) ++ [o] /\
    (ep (rollout_step a d), hacky_indict (rollout_step a d), hacky_store (rollout_step a d))
    = dataset_step (ep d, hacky_indict d, hacky_store d) o /\
    total_steps (rollout_step a d) = total_steps d + 1 /\
    train_steps (rollout_step a d) = train_steps d /\
    pnoise (rollout_step a d) = pnoise d /\
    (value_losses (rollout_step a d), policy_losses (rollout_step a d),
     adversary_losses (rollout_step a d))
    = (value_losses d, policy_losses d, adversary_losses d) /\
    (r_value_losses (results_dict (rollout_step a d)),
     r_policy_losses (results_dict (rollout_step a d)),
     r_adversary_losses (results_dict (rollout_step a d)))
    = (r_value_losses (results_dict d), r_policy_losses (results_dict d),
       r_adversary_losses (results_dict d)) /\
    update_flags (trace (rollout_step a d)) = update_flags (trace d) /\
    update_losses (trace (rollout_step a d)) = update_losses (trace d) /\
    json_dumps (trace (rollout_step a d)) = json_dumps (trace d).
Proof.
  unfold rollout_step. break_lets. subst.
  match goal with
  | H : dataset_step _ ?o = _ |- _ => exists o; rewrite H
  end.
  destruct (_ || _); break_lets; simpl;
    rewrite ?update_flags_app, ?update_losses_app, ?json_dumps_app, ?rollout_obs_app;
    simpl; rewrite ?app_nil_r; repeat split; reflexivity.
Qed.

(** One evaluation step: it selects with [mdp] and without noise, acts on
    [eval_env], and leaves the training counters, the dataset and the
    accumulators. *)
Lemma eval_step_spec (d : Driver) :
  select_calls (trace (eval_step d)) =
    select_calls (trace d) ++ [(eval_state d, None, None, mdp)] /\
  (exists es, envs_touched (trace (eval_step d)) = envs_touched (trace d) ++ es /\
              Forall (fun e => e = eval_env) es) /\
  total_steps (eval_step d) = total_steps d /\
  train_steps (eval_step d) = train_steps d /\
  pnoise (eval_step d) = pnoise d /\
  state (eval_step d) = state d /\
  (ep (eval_step d), hacky_indict (eval_step d), hacky_store (eval_step d))
  = (ep d, hacky_indict d, hacky_store d) /\
  (value_losses (eval_step d), policy_losses (eval_step d), adversary_losses (eval_step d))
  = (value_losses d, policy_losses d, adversary_losses d) /\
  (r_value_losses (results_dict (eval_step d)),
   r_policy_losses (results_dict (eval_step d)),
   r_adversary_losses (results_dict (eval_step d)))
  = (r_value_losses (results_dict d), r_policy_losses (results_dict d),
     r_adversary_losses (results_dict d)) /\
  update_flags (trace (eval_step d)) = update_flags (trace d) /\
  update_losses (trace (eval_step d)) = update_losses (trace d) /\
  rollout_obs (trace (eval_step d)) = rollout_obs (trace d) /\
  json_dumps (trace (eval_step d)) = json_dumps (trace d).
Proof.
  unfold eval_step. break_lets. subst.
  destruct (_ || _); break_lets; simpl;
    rewrite ?update_flags_app, ?update_losses_app, ?json_dumps_app, ?rollout_obs_app,
      ?select_calls_app, ?envs_touched_app;
    simpl; rewrite ?app_nil_r, <- ?app_assoc;
    (split; [reflexivity |]);
    (split; [eexists; split; [reflexivity | repeat constructor] |]);
    repeat split; reflexivity.
Qed.

End Steps.

(** ** The update schedule *)

Section Schedule.
Context `{W : World}.

(** C1. Every iteration of the update loop makes one call of
    update_parameters, whose boolean adversary_update chooses between the
    two players; with the ratio as configured (before line 184 adds one)
    the boolean of the call made at [train_steps] is
    [train_steps mod (ratio + 1) = 0] without flip_ratio and its negation
    with flip_ratio. *)
Theorem adversary_update_schedule (a : Args) (d : Driver) (n : nat) :
  ratio a + 1 <> 0 ->
  param_noise_interval a <> 0 ->
  (param_noise a = true -> is_Some (pnoise d)) ->
  adversary_update (train_steps d) (ratio (incr_ratio a)) (flip_ratio (incr_ratio a)) =
    Ok (if flip_ratio a
        then negb (train_steps d mod (ratio a + 1) =? 0)
        else (train_steps d mod (ratio a + 1) =? 0)) /\
  exists d',
    for_range n (train_step (incr_ratio a)) d = Ok d' /\
    update_flags (trace d') = update_flags (trace d) ++
      map (fun i =>
             if flip_ratio a
             then negb ((train_steps d + Z.of_nat i) mod (ratio a + 1) =? 0)
             else ((train_steps d + Z.of_nat i) mod (ratio a + 1) =? 0))
          (seq 0 n).
Proof.
  intros Hr Hi Hpn. split.
  - apply adversary_update_nonzero. exact Hr.
  - assert (Hrun : runnable (incr_ratio a) d) by (repeat split; assumption).
    destruct (train_loop_spec (incr_ratio a) n d Hrun)
      as (d' & ls & Hd' & _ & _ & _ & _ & _ & _ & _ & _ & _ & _ & Hfl & _).
    exists d'. split; [exact Hd' | exact Hfl].
Qed.

(** C3 (amended). With parameter noise enabled, an update step whose
    train_steps is a multiple of param_noise_interval samples a batch from
    the replay memory, asks the unperturbed policy ([mdp], no noise) for
    its actions on the states of that batch, takes [ddpg_distance_metric]
    of the actions stored in the batch and of those actions, and only then
    calls adapt with it; any other update step calls adapt not at all. *)
Theorem param_noise_adaptation_cadence (a : Args) (d : Driver) :
  param_noise_interval a <> 0 ->
  ratio a <> 0 ->
  (param_noise a = true -> is_Some (pnoise d)) ->
  exists d' l,
    train_step a d = Ok d' /\
    if param_noise a && (train_steps d mod param_noise_interval a =? 0)
    then
      trace d' = trace d ++
        [EvSample (batch_size a);
         EvSelectAction (batch_states a d) None None mdp;
         EvAdapt (ddpg_distance_metric (batch_actions a d) (unperturbed_on_batch a d));
         EvUpdateParameters (batch_size a) (method_ a)
           (adversary_turn (train_steps d) (ratio a) (flip_ratio a))
           (exploration_of a) l] /\
      pnoise d' =
        (fun pn => adapt pn (ddpg_distance_metric (batch_actions a d)
                               (unperturbed_on_batch a d))) <$> pnoise d
    else
      adapt_dists (trace d') = adapt_dists (trace d) /\ pnoise d' = pnoise d.
Proof.
  intros Hi Hr Hpn.
  destruct (param_noise a && (train_steps d mod param_noise_interval a =? 0)) eqn:Hc.
  - apply andb_true_iff in Hc as [Hflag Hmod]. apply Z.eqb_eq in Hmod.
    destruct (Hpn Hflag) as [pn Hsome].
    destruct (adapt_param_noise_some a d pn Hsome)
      as (d1 & Hd1 & Hp1 & Htr & Hts & _).
    destruct (update_call_spec a d1 Hr)
      as (d' & l & Hd' & Htr' & _ & _ & _ & _ & _ & Hpn' & _).
    exists d', l. unfold train_step.
    rewrite (maybe_adapt_on a d pn Hi Hflag Hmod Hsome), Hd1. simpl. rewrite Hd'.
    split; [reflexivity |]. split.
    + rewrite Htr', Htr, Hts, <- app_assoc. reflexivity.
    + rewrite Hpn', Hp1, Hsome. reflexivity.
  - assert (Hoff : param_noise a = false \/
                   train_steps d mod param_noise_interval a <> 0).
    { apply andb_false_iff in Hc as [Hc | Hc]; [left; exact Hc | right].
      apply Z.eqb_neq. exact Hc. }
    destruct (update_call_spec a d Hr)
      as (d' & l & Hd' & Htr' & _ & _ & _ & _ & _ & Hpn' & _).
    exists d', l. unfold train_step.
    rewrite (maybe_adapt_off a d Hi Hoff). simpl. rewrite Hd'.
    split; [reflexivity |]. split; [| exact Hpn'].
    rewrite Htr', adapt_dists_app. simpl. apply app_nil_r.
Qed.

End Schedule.
Lemma adversary_update_schedule_witness :
  exists d' : @Driver Toy.friendly,
    for_range 4 (train_step (incr_ratio Toy.args0)) Toy.three_stored = Ok d' /\
    update_flags (trace d') = [true; false; true; false].
Proof.
  destruct (adversary_update_schedule (W := Toy.friendly) Toy.args0 Toy.three_stored 4)
    as [_ (d' & Hrun & Hflags)].
  - simpl. lia.
  - simpl. lia.
  - intros _. simpl. eexists. reflexivity.
  - exists d'. split; [exact Hrun |]. rewrite Hflags. reflexivity.
Defined.

Lemma param_noise_adaptation_cadence_witness :
  exists d' : @Driver Toy.friendly,
    train_step Toy.args0 Toy.three_stored = Ok d' /\
    adapt_dists (trace d') = [0] /\ pnoise d' = Some 0.
Proof.
  destruct (param_noise_adaptation_cadence (W := Toy.friendly) Toy.args0 Toy.three_stored)
    as (d' & l & Hstep & Hcase).
  - simpl. lia.
  - simpl. lia.
  - intros _. simpl. eexists. reflexivity.
  - exists d'. split; [exact Hstep |].
    change (param_noise Toy.args0 &&
            (train_steps Toy.three_stored mod param_noise_interval Toy.args0 =? 0))
      with true in Hcase.
    destruct Hcase as [Htr Hpn]. rewrite Htr, Hpn. split; reflexivity.
Defined.

(** C3, as claimed, fails in a world whose agent shows the noise it is
    given.  After the first rollout phase the batch holds the states 0 and
    1 with the stored actions 8 and 118: the perturbed protagonist means 1
    and 11, the adversary means 0 and 100, and the action noise 7 twice.
    On the stacked state 1 the perturbed policy answers 11 and the
    unperturbed one 10, a distance of 1, while the update step hands adapt
    the distance of the stored actions, 116. *)
Lemma param_noise_distance_counterexample :
  param_noise Toy.args0 = true /\
  train_steps Toy.noisy_rolled mod param_noise_interval Toy.args0 = 0 /\
  @sampled_batch Toy.noisy Toy.args0 Toy.noisy_rolled
    = [(0, 8, true, 1, 8); (1, 118, true, 2, 118)] /\
  Toy.fed_distances Toy.noisy_rolled = [116] /\
  @spec_param_noise_distance Toy.noisy Toy.args0 Toy.noisy_rolled = 1 /\
  Toy.fed_distances Toy.noisy_rolled
    <> [@spec_param_noise_distance Toy.noisy Toy.args0 Toy.noisy_rolled].
Proof.
  repeat split; try reflexivity. vm_compute. discriminate.
Qed.

(** ** Configuration *)

Lemma derive_args_fields (a a' : Args) :
  derive_args a = Ok a' ->
  ratio a' = (if method_eqb (method_ a) pr_mdp then 10 else 1) /\
  method_ a' = method_ a /\
  exploration_method a' = Some (default (method_ a) (exploration_method a)) /\
  param_noise_interval a' = param_noise_interval a /\
  param_noise a' = param_noise a /\ flip_ratio a' = flip_ratio a /\
  num_steps a' = num_steps a /\ num_epochs a' = num_epochs a /\
  num_epochs_cycles a' = num_epochs_cycles a /\
  num_rollout_steps a' = num_rollout_steps a.
Proof.
  unfold derive_args. intros H.
  destruct (load_env_name _) as [n | e]; simpl in H; [| discriminate].
  injection H as <-.
  destruct (exploration_method a) eqn:He; simpl; rewrite ?He; repeat split; reflexivity.
Qed.

(** C2. A run started with [--ratio 5] and the default method trains with
    ratio 1: line 92 assigns the method's value whether or not the option
    was given. *)
Theorem user_ratio_overridden :
  cli_ratio Toy.small_cli = Some 5 /\
  ratio (parse_args Toy.small_cli) = 5 /\
  exists a, derive_args (parse_args Toy.small_cli) = Ok a /\ ratio a = 1.
Proof.
  split; [reflexivity |]. split; [reflexivity |].
  eexists. split; reflexivity.
Qed.

(** ** The update phase *)

Section UpdatePhase.
Context `{W : World}.

(** The update phase with its guard open. *)
Lemma update_phase_spec (a : Args) (d : Driver) :
  runnable a d ->
  memory_len (agent d) > batch_size a ->
  exists d' ls,
    update_phase a d = Ok d' /\ runnable a d' /\
    length ls = range_len (number_of_train_steps a) /\
    update_losses (trace d') = update_losses (trace d) ++ ls /\
    update_flags (trace d') = update_flags (trace d) ++
      map (fun i => adversary_turn (train_steps d + Z.of_nat i) (ratio a) (flip_ratio a))
          (seq 0 (range_len (number_of_train_steps a))) /\
    train_steps d' = train_steps d + Z.of_nat (range_len (number_of_train_steps a)) /\
    total_steps d' = total_steps d /\
    results_dict d' =
      add_losses (results_dict d)
        (total_steps d, np_mean (value_losses d ++ map (fun l => l.1.1) ls))
        (total_steps d, np_mean (policy_losses d ++ map (fun l => l.1.2) ls))
        (total_steps d, np_mean (adversary_losses d ++ map (fun l => l.2) ls)) /\
    (value_losses d', policy_losses d', adversary_losses d') = ([], [], []) /\
    (ep d', hacky_indict d', hacky_store d') = (ep d, hacky_indict d, hacky_store d) /\
    (sim d', state d', eval_state d') = (sim d, state d, eval_state d) /\
    rollout_obs (trace d') = rollout_obs (trace d) /\
    json_dumps (trace d') = json_dumps (trace d).
Proof.
  intros Hrun Hgt.
  destruct (train_loop_spec a (range_len (number_of_train_steps a)) d Hrun)
    as (d1 & ls & Hd1 & Hrun1 & Hlen & Hts & Htot & Hres & Hds & Hsim & Hv & Hp & Ha
        & Hfl & Hlo & Hro & Hjs).
  exists (record_losses d1), ls.
  rewrite (update_phase_entered a d Hgt), Hd1. simpl.
  rewrite Hv, Hp, Ha, Hres, Htot.
  split; [reflexivity |]. split; [exact Hrun1 |].
  repeat split; assumption.
Qed.

(** C4 (amended). The update phase of a cycle is skipped, leaving every
    variable as it was, exactly when the replay buffer holds no more
    transitions than one batch (length <= batch_size); when it holds more
    and no modulus is zero, number_of_train_steps calls of
    update_parameters run and one entry is added to the loss series. *)
Theorem update_guard (a : Args) (d : Driver) :
  runnable a d ->
  if memory_len (agent d) <=? batch_size a
  then update_phase a d = Ok d
  else
    exists d',
      update_phase a d = Ok d' /\ d' <> d /\
      length (update_flags (trace d')) =
        (length (update_flags (trace d)) + range_len (number_of_train_steps a))%nat /\
      train_steps d' = train_steps d + Z.of_nat (range_len (number_of_train_steps a)) /\
      length (r_value_losses (results_dict d')) =
        S (length (r_value_losses (results_dict d))).
Proof.
  intros Hrun.
  destruct (Z.leb_spec (memory_len (agent d)) (batch_size a)) as [Hle | Hgt].
  - apply update_phase_skipped. exact Hle.
  - destruct (update_phase_spec a d Hrun ltac:(lia))
      as (d' & ls & Hd' & _ & Hlen & _ & Hfl & Hts & _ & Hres & _).
    assert (Hlen' : length (r_value_losses (results_dict d')) =
                    S (length (r_value_losses (results_dict d)))).
    { rewrite Hres. simpl. rewrite length_app. simpl. lia. }
    exists d'. split; [exact Hd' |]. split.
    + intros ->. lia.
    + rewrite Hfl, length_app, length_map, length_seq. auto.
Qed.

End UpdatePhase.

Lemma update_guard_witness :
  exists d' : @Driver Toy.friendly,
    update_phase Toy.args0 Toy.three_stored = Ok d' /\
    train_steps d' = 3.
Proof.
  pose proof (update_guard (W := Toy.friendly) Toy.args0 Toy.three_stored) as H.
  change (memory_len (agent Toy.three_stored) <=? batch_size Toy.args0) with false in H.
  destruct H as (d' & Hd' & _ & _ & Hts & _).
  - split; [simpl; lia |]. split; [simpl; lia |].
    intros _. simpl. eexists. reflexivity.
  - exists d'. split; [exact Hd' |]. rewrite Hts. reflexivity.
Defined.

(** C4, as claimed, fails when the buffer holds exactly one batch: three
    update steps are configured and none runs. *)
Lemma update_guard_counterexample :
  memory_len (agent Toy.two_stored) = batch_size Toy.args0 /\
  ~ memory_len (agent Toy.two_stored) < batch_size Toy.args0 /\
  number_of_train_steps Toy.args0 = 3 /\
  update_phase Toy.args0 Toy.two_stored = Ok Toy.two_stored /\
  update_flags (trace Toy.two_stored) = [].
Proof.
  repeat split; try reflexivity. simpl. lia.
Qed.

(** ** Creating the run directory *)

Section BaseDir.
Context `{W : World}.

Lemma setup_total (a : Args) (nb : Z) :
  set_seed_everywhere (seed a) = Ok tt ->
  compute_nb_epochs a = Ok nb -> exists d0, setup a = Ok (nb, d0).
Proof.
  intros Hseed Hnb. unfold setup, make_base_dir. rewrite Hseed. simpl.
  destruct (os_makedirs _); simpl; rewrite Hnb; simpl; break_lets; eauto.
Qed.

(** Set-up gets past line 96 only with a seed that every generator takes. *)
Lemma setup_seeded (a : Args) (x : Z * Driver) :
  setup a = Ok x -> set_seed_everywhere (seed a) = Ok tt.
Proof.
  unfold setup. destruct (set_seed_everywhere (seed a)) as [[] | e]; simpl.
  - reflexivity.
  - discriminate.
Qed.

Lemma setup_spec (a : Args) (nb : Z) (d0 : Driver) :
  setup a = Ok (nb, d0) ->
  compute_nb_epochs a = Ok nb /\
  total_steps d0 = 0 /\ train_steps d0 = 0 /\
  accumulators d0 = ([], [], []) /\
  dataset_inv d0 /\
  (param_noise a = true -> is_Some (pnoise d0)).
Proof.
  unfold setup, make_base_dir. intros H.
  destruct (set_seed_everywhere (seed a)); simpl in H; [| discriminate].
  destruct (os_makedirs _); simpl in H;
    (destruct (compute_nb_epochs a) as [nb' | err]; simpl in H; [| discriminate]);
    break_lets; injection H as <- <-;
    (split; [reflexivity |]); unfold dataset_inv, dataset_vars, accumulators; simpl;
    repeat split; try reflexivity; intros ->; eauto.
Qed.

(** Set-up on two hosts that differ only in their file system. *)
Lemma setup_outcome_host (ex ex' : string -> bool) (mk mk' : string -> result unit)
    (a : Args) :
  setup_outcome (@setup (on_host W ex mk) a) =
  setup_outcome (@setup (on_host W ex' mk') a).
Proof.
  unfold setup, make_base_dir, setup_outcome. simpl.
  destruct (set_seed_everywhere (seed a)); simpl; [| reflexivity].
  destruct (mk _), (mk' _); simpl;
    (destruct (compute_nb_epochs a); simpl; [| reflexivity]);
    break_lets; reflexivity.
Qed.

(** C5 (amended). Whatever [os.makedirs] does on the checkpoint base
    directory (succeed, find the directory there, or fail in any other
    way), the creation step of lines 142-145 returns normally, and what the
    file system answers has no part in how set-up ends: on two hosts that
    differ only in their file system, set-up raises the same exception or
    finds the same number of epochs. *)
Theorem base_dir_creation_never_fatal (ex ex' : string -> bool)
    (mk mk' : string -> result unit) (a : Args) :
  @make_base_dir (on_host W ex mk) (@base_dir_name (on_host W ex mk) a) = Ok tt /\
  setup_outcome (@setup (on_host W ex mk) a) =
  setup_outcome (@setup (on_host W ex' mk') a).
Proof.
  split.
  - unfold make_base_dir. destruct (os_makedirs _); reflexivity.
  - apply setup_outcome_host.
Qed.

End BaseDir.

(** C5, as claimed, fails on a host that refuses the creation: the error
    is swallowed, the creation step returns normally and set-up goes on to
    compute the number of epochs and to reset the environment. *)
Lemma base_dir_counterexample :
  @os_makedirs Toy.read_only (@base_dir_name Toy.read_only Toy.args0)
    = Raise PermissionError /\
  @make_base_dir Toy.read_only (@base_dir_name Toy.read_only Toy.args0) = Ok tt /\
  exists d0, @setup Toy.read_only Toy.args0 = Ok (2, d0).
Proof.
  split; [reflexivity |]. split; [reflexivity |].
  apply setup_total; reflexivity.
Qed.

(** ** Evaluation *)

Section Evaluation.
Context `{W : World}.

Lemma eval_phase_frame (a : Args) (d : Driver) :
  total_steps (eval_phase a d) = total_steps d /\
  train_steps (eval_phase a d) = train_steps d /\
  pnoise (eval_phase a d) = pnoise d /\
  state (eval_phase a d) = state d /\
  (ep (eval_phase a d), hacky_indict (eval_phase a d), hacky_store (eval_phase a d))
  = (ep d, hacky_indict d, hacky_store d) /\
  (value_losses (eval_phase a d), policy_losses (eval_phase a d),
   adversary_losses (eval_phase a d))
  = (value_losses d, policy_losses d, adversary_losses d) /\
  (r_value_losses (results_dict (eval_phase a d)),
   r_policy_losses (results_dict (eval_phase a d)),
   r_adversary_losses (results_dict (eval_phase a d)))
  = (r_value_losses (results_dict d), r_policy_losses (results_dict d),
     r_adversary_losses (results_dict d)) /\
  update_flags (trace (eval_phase a d)) = update_flags (trace d) /\
  update_losses (trace (eval_phase a d)) = update_losses (trace d) /\
  rollout_obs (trace (eval_phase a d)) = rollout_obs (trace d) /\
  json_dumps (trace (eval_phase a d)) = json_dumps (trace d).
Proof.
  unfold eval_phase. induction (range_len (num_rollout_steps a)) as [| n IH].
  - simpl. repeat split; reflexivity.
  - rewrite Nat.iter_succ.
    destruct (eval_step_spec (Nat.iter n eval_step d))
      as (_ & _ & H1 & H2 & H3 & H4 & H5 & H6 & H7 & H8 & H9 & H10 & H11).
    destruct IH as (I1 & I2 & I3 & I4 & I5 & I6 & I7 & I8 & I9 & I10 & I11).
    repeat split; congruence.
Qed.

(** C7. An evaluation phase makes one action selection per evaluation
    step, and each of them is made with mdp_type [mdp], no action noise
    and no parameter noise, whatever the arguments of the run; it steps and
    resets no handle but [eval_env]. *)
Theorem eval_selects_policy_only (a : Args) (d : Driver) :
  exists calls es,
    select_calls (trace (eval_phase a d)) = select_calls (trace d) ++ calls /\
    length calls = range_len (num_rollout_steps a) /\
    Forall (fun c => c.1.1.2 = None /\ c.1.2 = None /\ c.2 = mdp) calls /\
    envs_touched (trace (eval_phase a d)) = envs_touched (trace d) ++ es /\
    Forall (fun e => e = eval_env) es.
Proof.
  unfold eval_phase. induction (range_len (num_rollout_steps a)) as [| n IH].
  - exists [], []. simpl. rewrite !app_nil_r. repeat split; constructor.
  - destruct IH as (calls & es & Hc & Hlen & Hall & He & Hes).
    rewrite Nat.iter_succ.
    destruct (eval_step_spec (Nat.iter n eval_step d)) as (Hsel & (es1 & He1 & Hes1) & _).
    exists (calls ++ [(eval_state (Nat.iter n eval_step d), None, None, mdp)]), (es ++ es1).
    rewrite Hsel, Hc, He1, He, <- !app_assoc, length_app. simpl.
    repeat split; try lia.
    + apply Forall_app. split; [exact Hall |]. repeat constructor.
    + apply Forall_app. split; assumption.
Qed.

End Evaluation.

(** ** One cycle *)

Section Cycle.
Context `{W : World}.

Lemma rollout_phase_spec (a : Args) (d : Driver) :
  exists os,
    rollout_obs (trace (rollout_phase a d)) = rollout_obs (trace d) ++ os /\
    length os = range_len (num_rollout_steps a) /\
    (ep (rollout_phase a d), hacky_indict (rollout_phase a d),
     hacky_store (rollout_phase a d))
    = fold_left dataset_step os (ep d, hacky_indict d, hacky_store d) /\
    total_steps (rollout_phase a d) =
      total_steps d + Z.of_nat (range_len (num_rollout_steps a)) /\
    train_steps (rollout_phase a d) = train_steps d /\
    pnoise (rollout_phase a d) = pnoise d /\
    (value_losses (rollout_phase a d), policy_losses (rollout_phase a d),
     adversary_losses (rollout_phase a d))
    = (value_losses d, policy_losses d, adversary_losses d) /\
    (r_value_losses (results_dict (rollout_phase a d)),
     r_policy_losses (results_dict (rollout_phase a d)),
     r_adversary_losses (results_dict (rollout_phase a d)))
    = (r_value_losses (results_dict d), r_policy_losses (results_dict d),
       r_adversary_losses (results_dict d)) /\
    update_flags (trace (rollout_phase a d)) = update_flags (trace d) /\
    update_losses (trace (rollout_phase a d)) = update_losses (trace d) /\
    json_dumps (trace (rollout_phase a d)) = json_dumps (trace d).
Proof.
  unfold rollout_phase. induction (range_len (num_rollout_steps a)) as [| n IH].
  - exists []. simpl. rewrite app_nil_r, Z.add_0_r. repeat split; reflexivity.
  - destruct IH as (os & I1 & I2 & I3 & I4 & I5 & I6 & I7 & I8 & I9 & I10 & I11).
    rewrite Nat.iter_succ.
    destruct (rollout_step_spec a (Nat.iter n (rollout_step a) d))
      as (o & H1 & H2 & H3 & H4 & H5 & H6 & H7 & H8 & H9 & H10).
    exists (os ++ [o]).
    rewrite H1, H2, H3, H4, H5, H6, H7, H8, H9, H10, I1, I3, I4, fold_left_app, length_app.
    simpl. rewrite <- app_assoc. repeat split; try assumption; lia.
Qed.

Lemma save_frame (d : Driver) :
  total_steps (save d) = total_steps d /\ train_steps (save d) = train_steps d /\
  pnoise (save d) = pnoise d /\ results_dict (save d) = results_dict d /\
  (ep (save d), hacky_indict (save d), hacky_store (save d))
  = (ep d, hacky_indict d, hacky_store d) /\
  (value_losses (save d), policy_losses (save d), adversary_losses (save d))
  = (value_losses d, policy_losses d, adversary_losses d) /\
  update_flags (trace (save d)) = update_flags (trace d) /\
  update_losses (trace (save d)) = update_losses (trace d) /\
  rollout_obs (trace (save d)) = rollout_obs (trace d) /\
  json_dumps (trace (save d)) = json_dumps (trace d).
Proof.
  unfold save, log_events. simpl.
  rewrite update_flags_app, update_losses_app, rollout_obs_app, json_dumps_app.
  simpl. rewrite !app_nil_r. repeat split; reflexivity.
Qed.

Lemma runnable_pnoise (a : Args) (d d' : Driver) :
  pnoise d' = pnoise d -> runnable a d -> runnable a d'.
Proof.
  intros Hp (Hi & Hr & Hpn). repeat split; try assumption. rewrite Hp. exact Hpn.
Qed.

(** One cycle from a state where an update step cannot raise: the rollout
    feeds the dataset, the update phase (when entered) turns this cycle's
    losses into one entry per series and empties the accumulators, and
    evaluation and saving change none of these. *)
Lemma cycle_spec (a : Args) (d : Driver) :
  runnable a d ->
  exists d' os ls,
    cycle a d = Ok d' /\ runnable a d' /\
    total_steps d' = total_steps d + Z.of_nat (range_len (num_rollout_steps a)) /\
    rollout_obs (trace d') = rollout_obs (trace d) ++ os /\
    length os = range_len (num_rollout_steps a) /\
    (ep d', hacky_indict d', hacky_store d')
    = fold_left dataset_step os (ep d, hacky_indict d, hacky_store d) /\
    json_dumps (trace d') = json_dumps (trace d) /\
    update_losses (trace d') = update_losses (trace d) ++ ls /\
    if memory_len (agent (rollout_phase a d)) >? batch_size a
    then
      length ls = range_len (number_of_train_steps a) /\
      loss_series (results_dict d') =
        (r_value_losses (results_dict d) ++
           [(total_steps d', np_mean (value_losses d ++ map (fun l => l.1.1) ls))],
         r_policy_losses (results_dict d) ++
           [(total_steps d', np_mean (policy_losses d ++ map (fun l => l.1.2) ls))],
         r_adversary_losses (results_dict d) ++
           [(total_steps d', np_mean (adversary_losses d ++ map (fun l => l.2) ls))]) /\
      accumulators d' = ([], [], [])
    else
      ls = [] /\ loss_series (results_dict d') = loss_series (results_dict d) /\
      accumulators d' = accumulators d.
Proof.
  intros Hrun. unfold cycle, loss_series, accumulators.
  destruct (rollout_phase_spec a d)
    as (os & R1 & R2 & R3 & R4 & R5 & R6 & R7 & R8 & R9 & R10 & R11).
  pose proof (runnable_pnoise a d _ R6 Hrun) as Hrun1.
  set (d1 := rollout_phase a d) in *.
  destruct (memory_len (agent d1) >? batch_size a) eqn:Hguard.
  - assert (Hgt : memory_len (agent d1) > batch_size a).
    { destruct (Z.gtb_spec (memory_len (agent d1)) (batch_size a)); [lia | discriminate]. }
    destruct (update_phase_spec a d1 Hrun1 Hgt)
      as (d2 & ls & U1 & Hrun2 & U2 & U3 & U4 & U5 & U6 & U7 & U8 & U9 & U10 & U11 & U12).
    rewrite U1. simpl bind.
    destruct (eval_phase_frame a d2)
      as (E1 & E2 & E3 & E4 & E5 & E6 & E7 & E8 & E9 & E10 & E11).
    destruct (save_frame (eval_phase a d2))
      as (S1 & S2 & S3 & S4 & S5 & S6 & S7 & S8 & S9 & S10).
    exists (save (eval_phase a d2)), os, ls.
    split; [reflexivity |].
    split; [apply (runnable_pnoise a d2); [congruence | exact Hrun2] |].
    rewrite S1, S4, S5, S6, S8, S9, S10, E1, E5, E6, E7, E9, E10, E11.
    rewrite U3, U6, U7, U8, U9, U11, U12, R1, R3, R4, R10, R11. simpl.
    injection R7 as -> -> ->. injection R8 as -> -> ->.
    repeat split; auto.
  - assert (Hle : memory_len (agent d1) <= batch_size a).
    { destruct (Z.gtb_spec (memory_len (agent d1)) (batch_size a)); [discriminate | lia]. }
    rewrite (update_phase_skipped a d1 Hle). simpl bind.
    destruct (eval_phase_frame a d1)
      as (E1 & E2 & E3 & E4 & E5 & E6 & E7 & E8 & E9 & E10 & E11).
    destruct (save_frame (eval_phase a d1))
      as (S1 & S2 & S3 & S4 & S5 & S6 & S7 & S8 & S9 & S10).
    exists (save (eval_phase a d1)), os, [].
    split; [reflexivity |].
    split; [apply (runnable_pnoise a d1); [congruence | exact Hrun1] |].
    rewrite S1, S4, S5, S6, S8, S9, S10, E1, E5, E6, E7, E9, E10, E11.
    rewrite R1, R3, R4, R7, R8, R10, R11, app_nil_r.
    repeat split; auto.
Qed.

(** C10. From empty accumulators, a cycle ends with empty accumulators;
    when its update phase runs, the one entry added to each of the three
    loss series is (total_steps, mean of the losses returned by this
    cycle's calls of update_parameters), and when it is skipped no entry is
    added. *)
Theorem loss_entries_average_current_cycle (a : Args) (d : Driver) :
  runnable a d ->
  accumulators d = ([], [], []) ->
  exists d' ls,
    cycle a d = Ok d' /\
    accumulators d' = ([], [], []) /\
    update_losses (trace d') = update_losses (trace d) ++ ls /\
    if memory_len (agent (rollout_phase a d)) >? batch_size a
    then
      length ls = range_len (number_of_train_steps a) /\
      r_value_losses (results_dict d') =
        r_value_losses (results_dict d) ++
          [(total_steps d', np_mean (map (fun l => l.1.1) ls))] /\
      r_policy_losses (results_dict d') =
        r_policy_losses (results_dict d) ++
          [(total_steps d', np_mean (map (fun l => l.1.2) ls))] /\
      r_adversary_losses (results_dict d') =
        r_adversary_losses (results_dict d) ++
          [(total_steps d', np_mean (map (fun l => l.2) ls))]
    else
      ls = [] /\ loss_series (results_dict d') = loss_series (results_dict d).
Proof.
  intros Hrun Hacc.
  destruct (cycle_spec a d Hrun) as (d' & os & ls & Hd' & _ & _ & _ & _ & _ & _ & Hlo & Hcase).
  exists d', ls. split; [exact Hd' |].
  unfold accumulators in Hacc. injection Hacc as Hv Hp Ha.
  rewrite Hv, Hp, Ha in Hcase. simpl in Hcase.
  destruct (memory_len (agent (rollout_phase a d)) >? batch_size a).
  - destruct Hcase as (Hlen & Hser & Hacc'). unfold loss_series in Hser.
    injection Hser as -> -> ->. repeat split; auto.
  - destruct Hcase as (-> & Hser & Hacc'). unfold accumulators in Hacc'.
    rewrite Hv, Hp, Ha in Hacc'. repeat split; auto.
Qed.

Lemma cycle_advances (a : Args) (d : Driver) :
  runnable a d -> accumulators d = ([], [], []) ->
  exists d', cycle a d = Ok d' /\ advances a (range_len (num_rollout_steps a)) d d'.
Proof.
  intros Hrun Hacc.
  destruct (cycle_spec a d Hrun)
    as (d' & os & ls & Hd' & Hrun' & Htot & Hobs & Hlen & Hds & Hjs & _ & Hcase).
  exists d'. split; [exact Hd' |]. unfold advances, dataset_vars.
  split; [exact Hrun' |]. split.
  - destruct (memory_len (agent (rollout_phase a d)) >? batch_size a).
    + apply Hcase.
    + destruct Hcase as (_ & _ & ->). exact Hacc.
  - split; [exact Htot |]. exists os. auto.
Qed.

(** Iterating a body that advances by [k] steps advances by [n * k]. *)
Lemma for_range_advances (a : Args) (k : nat) (body : Driver -> result Driver) :
  (forall d, runnable a d -> accumulators d = ([], [], []) ->
             exists d', body d = Ok d' /\ advances a k d d') ->
  forall n d, runnable a d -> accumulators d = ([], [], []) ->
              exists d', for_range n body d = Ok d' /\ advances a (n * k) d d'.
Proof.
  intros Hbody n. induction n as [| n IH]; intros d Hrun Hacc.
  - exists d. split; [reflexivity |]. unfold advances.
    split; [exact Hrun |]. split; [exact Hacc |]. split; [simpl; lia |].
    exists []. rewrite app_nil_r. auto.
  - destruct (Hbody d Hrun Hacc) as (d1 & Hd1 & Hrun1 & Hacc1 & Htot1 & os1 & Ho1 & Hl1 & Hds1 & Hj1).
    destruct (IH d1 Hrun1 Hacc1) as (d' & Hd' & Hrun' & Hacc' & Htot' & os & Ho & Hl & Hds & Hj).
    exists d'. change (for_range (S n) body d) with (do s' <- body d; for_range n body s').
    rewrite Hd1. simpl bind. split; [exact Hd' |]. unfold advances.
    split; [exact Hrun' |]. split; [exact Hacc' |]. split; [lia |].
    exists (os1 ++ os).
    rewrite Ho, Ho1, Hds, Hds1, Hj, Hj1, fold_left_app, length_app, <- app_assoc.
    repeat split; auto. simpl. lia.
Qed.

Lemma training_advances (a : Args) (nb : Z) (d : Driver) :
  runnable a d -> accumulators d = ([], [], []) ->
  exists d',
    training a nb d = Ok d' /\
    advances a (range_len nb * (range_len (num_epochs_cycles a)
                                * range_len (num_rollout_steps a))) d d'.
Proof.
  intros Hrun Hacc. unfold training.
  apply for_range_advances; [| exact Hrun | exact Hacc].
  intros d1 Hrun1 Hacc1. unfold epoch.
  apply for_range_advances; [| exact Hrun1 | exact Hacc1].
  intros d2 Hrun2 Hacc2. apply cycle_advances; assumption.
Qed.

End Cycle.

Lemma loss_entries_average_current_cycle_witness :
  exists (d' : @Driver Toy.friendly) (ls : list (Z * Z * Z)),
    cycle Toy.args0 Toy.three_stored = Ok d' /\
    accumulators d' = ([], [], []) /\
    length ls = 3%nat /\
    r_value_losses (results_dict d') =
      [(total_steps d', @np_mean Toy.friendly (map (fun l => l.1.1) ls))].
Proof.
  destruct (loss_entries_average_current_cycle (W := Toy.friendly)
              Toy.args0 Toy.three_stored)
    as (d' & ls & Hd' & Hacc & _ & Hcase).
  - split; [simpl; lia |]. split; [simpl; lia |].
    intros _. simpl. eexists. reflexivity.
  - reflexivity.
  - assert (Hg : (memory_len (agent (rollout_phase Toy.args0 Toy.three_stored))
                  >? batch_size Toy.args0) = true) by (vm_compute; reflexivity).
    rewrite Hg in Hcase. destruct Hcase as (Hlen & Hv & _).
    exists d', ls. repeat split; assumption.
Defined.

(** ** The whole run *)

Section Run.
Context `{W : World}.

(** From a state that set-up made, the training loop runs to its end and
    makes as many rollout steps as its three loops have iterations; the
    counter of line 197 agrees with the steps on the trace. *)
Lemma training_steps (a : Args) (nb : Z) (d0 : Driver) :
  setup a = Ok (nb, d0) ->
  param_noise_interval a <> 0 ->
  ratio a + 1 <> 0 ->
  exists d',
    training (incr_ratio a) nb d0 = Ok d' /\
    rollout_steps_made d' =
      Z.of_nat (range_len nb) * Z.of_nat (range_len (num_epochs_cycles a))
      * Z.of_nat (range_len (num_rollout_steps a)) /\
    total_steps d' = rollout_steps_made d'.
Proof.
  intros Hs Hi Hr.
  destruct (setup_spec a nb d0 Hs) as (_ & Htot & _ & Hacc & (_ & _ & Hlen) & Hpn).
  assert (Hrun0 : runnable (incr_ratio a) d0) by (repeat split; assumption).
  destruct (training_advances (incr_ratio a) nb d0 Hrun0 Hacc)
    as (d' & Hd' & _ & _ & Htot' & os & Hos & Hk & _).
  exists d'. split; [exact Hd' |].
  assert (Hnil : rollout_obs (trace d0) = []).
  { destruct (rollout_obs (trace d0)); [reflexivity |].
    rewrite Htot in Hlen. simpl in Hlen. lia. }
  unfold rollout_steps_made. rewrite Hos, Hnil. simpl. rewrite Hk.
  split.
  - simpl. rewrite !Nat2Z.inj_mul. lia.
  - rewrite Htot', Htot. reflexivity.
Qed.

(** C9 (amended). On arguments with a seed that the generators take, a
    cadence of the parameter noise that is not zero, a ratio that is not
    -1, loops of at least one cycle and one rollout step and a num_steps
    that is not negative: with num_steps given, set-up fails on its
    assertion when num_epochs is given too; otherwise the number of epochs
    is num_steps // (num_epochs_cycles * num_rollout_steps), the run makes
    nb_epochs * num_epochs_cycles * num_rollout_steps rollout steps, its
    step counter says as much, and that is at most num_steps.  With
    num_steps absent the run makes the rollout steps of 500 epochs. *)
Theorem epochs_from_num_steps (a : Args) :
  set_seed_everywhere (seed a) = Ok tt ->
  param_noise_interval a <> 0 ->
  ratio a + 1 <> 0 ->
  0 < num_epochs_cycles a ->
  0 < num_rollout_steps a ->
  (forall n, num_steps a = Some n -> 0 <= n) ->
  match num_steps a, num_epochs a with
  | Some n, Some _ => setup a = Raise AssertionError
  | Some n, None =>
      let nb_epochs := n / (num_epochs_cycles a * num_rollout_steps a) in
      exists d0 d',
        setup a = Ok (nb_epochs, d0) /\
        training (incr_ratio a) nb_epochs d0 = Ok d' /\
        rollout_steps_made d' =
          nb_epochs * num_epochs_cycles a * num_rollout_steps a /\
        total_steps d' = rollout_steps_made d' /\
        rollout_steps_made d' <= n
  | None, _ =>
      exists d0 d',
        setup a = Ok (500, d0) /\
        training (incr_ratio a) 500 d0 = Ok d' /\
        rollout_steps_made d' = 500 * num_epochs_cycles a * num_rollout_steps a /\
        total_steps d' = rollout_steps_made d'
  end.
Proof.
  intros Hseed Hi Hr Hc Hro Hn.
  assert (Hrun : forall nb d0, setup a = Ok (nb, d0) -> 0 <= nb ->
            exists d', training (incr_ratio a) nb d0 = Ok d' /\
              rollout_steps_made d' = nb * num_epochs_cycles a * num_rollout_steps a /\
              total_steps d' = rollout_steps_made d').
  { intros nb d0 Hs Hnb0.
    destruct (training_steps a nb d0 Hs Hi Hr) as (d' & Hd' & Hmade & Htot).
    exists d'. split; [exact Hd' |]. split; [| exact Htot].
    rewrite Hmade. unfold range_len.
    rewrite (Z2Nat.id nb), (Z2Nat.id (num_epochs_cycles a)),
      (Z2Nat.id (num_rollout_steps a)) by lia.
    reflexivity. }
  destruct (num_steps a) as [n |] eqn:Hns.
  - destruct (num_epochs a) as [e |] eqn:Hne.
    + unfold setup, make_base_dir, compute_nb_epochs. rewrite Hseed, Hns, Hne.
      simpl. destruct (os_makedirs _); reflexivity.
    + pose proof (Hn n eq_refl) as Hn0.
      assert (Hd : num_epochs_cycles a * num_rollout_steps a > 0) by lia.
      assert (Hnb : compute_nb_epochs a =
                    Ok (n / (num_epochs_cycles a * num_rollout_steps a))).
      { unfold compute_nb_epochs. rewrite Hns, Hne. apply py_floordiv_nonzero. lia. }
      destruct (setup_total a _ Hseed Hnb) as (d0 & Hs).
      assert (Hq : 0 <= n / (num_epochs_cycles a * num_rollout_steps a))
        by (apply Z.div_pos; lia).
      destruct (Hrun _ d0 Hs Hq) as (d' & Hd' & Hmade & Htot).
      exists d0, d'. split; [exact Hs |]. split; [exact Hd' |].
      split; [exact Hmade |]. split; [exact Htot |].
      rewrite Hmade, <- Z.mul_assoc, Z.mul_comm.
      apply Z.mul_div_le. lia.
  - assert (Hnb : compute_nb_epochs a = Ok 500).
    { unfold compute_nb_epochs. rewrite Hns. reflexivity. }
    destruct (setup_total a _ Hseed Hnb) as (d0 & Hs).
    destruct (Hrun _ d0 Hs ltac:(lia)) as (d' & Hd' & Hmade & Htot).
    exists d0, d'. split; [exact Hs |]. split; [exact Hd' |].
    split; [exact Hmade | exact Htot].
Qed.

(** A run whose arguments derive, whose seed the generators take, whose
    number of epochs can be computed and whose dataset directory can be
    made runs to its end, provided the cadence of the parameter noise is
    not zero. *)
Lemma main_total (c : Cli) (a : Args) (nb : Z) :
  derive_args (parse_args c) = Ok a ->
  set_seed_everywhere (seed a) = Ok tt ->
  param_noise_interval a <> 0 ->
  compute_nb_epochs a = Ok nb ->
  make_dataset_dir dataset_dir_name = Ok tt ->
  exists d, main c = Ok d.
Proof.
  intros Hderive Hseed Hi Hnb Hdir. unfold main. rewrite Hderive. simpl.
  destruct (setup_total a nb Hseed Hnb) as (d0 & Hs). rewrite Hs. simpl.
  destruct (setup_spec a nb d0 Hs) as (_ & _ & _ & Hacc & _ & Hpn).
  destruct (derive_args_fields _ _ Hderive) as (Hr & _).
  assert (Hrun0 : runnable (incr_ratio a) d0).
  { repeat split; try assumption. simpl. rewrite Hr.
    destruct (method_eqb _ _); lia. }
  destruct (training_advances (incr_ratio a) nb d0 Hrun0 Hacc) as (d1 & Hd1 & _).
  rewrite Hd1. simpl. rewrite Hdir. simpl. eauto.
Qed.

End Run.

Lemma epochs_from_num_steps_witness :
  exists (d0 d' : @Driver Toy.friendly),
    setup Toy.args0 = Ok (2, d0) /\
    training (incr_ratio Toy.args0) 2 d0 = Ok d' /\
    rollout_steps_made d' = 16 /\ total_steps d' = rollout_steps_made d' /\
    rollout_steps_made d' <= 17.
Proof.
  pose proof (epochs_from_num_steps (W := Toy.friendly) Toy.args0) as H.
  simpl in H. apply H; try lia.
  - reflexivity.
  - intros n [= <-]. lia.
Defined.

(** C9, as claimed, fails on a negative num_steps: with --num_steps -1,
    two cycles and four rollout steps the number of epochs is -1, the
    epoch loop has no iteration, and the run makes no rollout step, which
    is neither nb_epochs * num_epochs_cycles * num_rollout_steps = -8 nor
    at most num_steps. *)
Lemma epochs_counterexample :
  num_steps Toy.negative_steps_args = Some (-1) /\
  num_epochs Toy.negative_steps_args = None /\
  exists (d0 d' : @Driver Toy.friendly),
    setup Toy.negative_steps_args = Ok (-1, d0) /\
    training (incr_ratio Toy.negative_steps_args) (-1) d0 = Ok d' /\
    rollout_steps_made d' = 0 /\
    rollout_steps_made d' <>
      -1 * num_epochs_cycles Toy.negative_steps_args
         * num_rollout_steps Toy.negative_steps_args /\
    ~ rollout_steps_made d' <= -1.
Proof.
  split; [reflexivity |]. split; [reflexivity |].
  destruct (setup_total (W := Toy.friendly) Toy.negative_steps_args (-1)
              eq_refl eq_refl) as (d0 & Hs).
  exists d0, d0. split; [exact Hs |]. split; [reflexivity |].
  destruct (setup_spec (W := Toy.friendly) _ _ _ Hs) as (_ & Htot & _ & _ & (_ & _ & Hlen) & _).
  assert (H0 : rollout_steps_made d0 = 0).
  { unfold rollout_steps_made. rewrite <- Hlen. exact Htot. }
  rewrite H0. simpl. split; [reflexivity |]. split; lia.
Qed.

(** ** Evaluation and the training environment *)

Section Aliasing.
Context `{W : World}.

(** [eval_env] wraps [env]: a step of the one is a step of the other. *)
Lemma eval_env_steps_env (s : Sim) (x : Action) :
  env_step eval_env s x = env_step env s (normalize x).
Proof. reflexivity. Qed.

Lemma eval_env_resets_env (s : Sim) : env_reset eval_env s = env_reset env s.
Proof. reflexivity. Qed.

(** The simulator after an evaluation step is the simulator of the
    training environment, stepped (and reset when the episode ended). *)
Lemma eval_step_sim (d : Driver) :
  let out := (select_action (agent d) (eval_state d) None None mdp).2 in
  let r := env_step env (sim d) (normalize (as_tensor out)) in
  sim (eval_step d) =
    if r.2.1.1.2 || r.2.1.2 then (env_reset env r.1).1 else r.1.
Proof.
  unfold eval_step. simpl. break_lets. subst. simpl.
  destruct (_ || _); break_lets; reflexivity.
Qed.

End Aliasing.

(** C6. On the counter world, one evaluation phase of four steps moves the
    simulator of the training environment from 0 to 4 while the training
    loop still holds the state 0, and the next training transition ends in
    state 5 instead of state 1. *)
Theorem evaluation_steps_training_env :
  sim Toy.start = 0 /\
  sim (eval_phase Toy.args0 Toy.start) = 4 /\
  state (eval_phase Toy.args0 Toy.start) = 0 /\
  state (rollout_step Toy.args0 Toy.start) = 1 /\
  state (rollout_step Toy.args0 (eval_phase Toy.args0 Toy.start)) = 5.
Proof. repeat split; vm_compute; reflexivity. Qed.

(** ** The dataset *)

Section Dataset.
Context `{W : World}.

Lemma records_at_append (store : gmap Z (list Indict)) (k j : Z) (r : Indict) :
  records_at (store_append store k r) j =
  records_at store j ++ (if j =? k then [r] else []).
Proof.
  unfold records_at, store_append.
  destruct (Z.eqb_spec j k) as [-> | Hne].
  - rewrite lookup_insert_eq. reflexivity.
  - rewrite lookup_insert_ne by congruence. rewrite app_nil_r. reflexivity.
Qed.

Lemma episode_at_lt (es : list (list StepObs)) (k j : Z) :
  j < k -> episode_at k es j = [].
Proof.
  revert k. induction es as [| e es IH]; intros k Hlt; simpl; [reflexivity |].
  destruct (Z.eqb_spec j k); [lia |]. apply IH. lia.
Qed.

Lemma episodes_open (o : StepObs) (obs : list StepObs) :
  terminal o = false ->
  episodes (o :: obs) = (o :: hd [] (episodes obs)) :: tl (episodes obs).
Proof. intros H. simpl. rewrite H. reflexivity. Qed.

Lemma episodes_closed (o : StepObs) (obs : list StepObs) :
  terminal o = true -> episodes (o :: obs) = [o] :: episodes obs.
Proof. intros H. simpl. rewrite H. reflexivity. Qed.

Lemma dataset_step_closed k prev store (o : StepObs) :
  terminal o = true ->
  dataset_step (k, indict_of <$> prev, store) o =
  (k + 1, None,
   match prev with
   | Some p => store_append store k (mk_record p o)
   | None => store
   end).
Proof.
  intros H. unfold dataset_step, terminal in *. rewrite H.
  destruct prev; reflexivity.
Qed.

Lemma dataset_step_open k prev store (o : StepObs) :
  terminal o = false ->
  dataset_step (k, indict_of <$> prev, store) o =
  (k, indict_of <$> Some o,
   match prev with
   | Some p => store_append store k (mk_record p o)
   | None => store
   end).
Proof.
  intros H. unfold dataset_step, terminal in *. rewrite H.
  destruct prev; reflexivity.
Qed.

(** What the fold adds to the store: for each episode, one record per
    pair of consecutive steps, the first pair made of the pending step (if
    any) and the first coming step. *)
Lemma dataset_fold_records (obs : list StepObs) :
  forall k prev store j,
    match prev with Some p => terminal p = false | None => True end ->
    records_at (fold_left dataset_step obs (k, indict_of <$> prev, store)).2 j =
    records_at store j ++ pair_up (episode_at k (episodes (with_pending prev obs)) j).
Proof.
  induction obs as [| o rest IH]; intros k prev store j Hprev.
  - simpl. destruct prev as [p |]; simpl.
    + rewrite Hprev. simpl. destruct (j =? k); simpl; rewrite app_nil_r; reflexivity.
    + destruct (j =? k); simpl; rewrite app_nil_r; reflexivity.
  - cbn [fold_left]. destruct (terminal o) eqn:Ho.
    + rewrite (dataset_step_closed _ _ _ _ Ho).
      change (@None Indict) with (indict_of <$> @None StepObs).
      rewrite (IH (k + 1) None _ j I). simpl with_pending.
      destruct prev as [p |]; simpl with_pending.
      * rewrite (episodes_open p _ Hprev), (episodes_closed o _ Ho). simpl.
        rewrite records_at_append.
        destruct (Z.eqb_spec j k) as [-> | Hne].
        -- rewrite episode_at_lt by lia. simpl. rewrite <- app_assoc. reflexivity.
        -- rewrite app_nil_r. reflexivity.
      * rewrite (episodes_closed o _ Ho). simpl.
        destruct (Z.eqb_spec j k) as [-> | Hne]; [| reflexivity].
        rewrite episode_at_lt by lia. reflexivity.
    + rewrite (dataset_step_open _ _ _ _ Ho).
      rewrite (IH k (Some o) _ j Ho). simpl with_pending.
      destruct prev as [p |]; simpl with_pending; [| reflexivity].
      rewrite (episodes_open p _ Hprev), (episodes_open o _ Ho). simpl.
      rewrite records_at_append.
      destruct (Z.eqb_spec j k) as [-> | Hne].
      * simpl. rewrite <- app_assoc. reflexivity.
      * rewrite app_nil_r. reflexivity.
Qed.

(** From the start of a run: the records of episode [j] pair each step of
    that episode with the step after it. *)
Lemma dataset_fold_from_start (obs : list StepObs) (j : Z) :
  records_at (fold_left dataset_step obs (0, None, ∅)).2 j =
  pair_up (episode_at 0 (episodes obs) j).
Proof.
  change (@None Indict) with (indict_of <$> @None StepObs).
  rewrite (dataset_fold_records obs 0 None ∅ j I).
  unfold records_at. rewrite lookup_empty. reflexivity.
Qed.

Lemma quiet_refl (d : Driver) : quiet d d.
Proof. repeat split; reflexivity. Qed.

Lemma quiet_trans (d1 d2 d3 : Driver) : quiet d1 d2 -> quiet d2 d3 -> quiet d1 d3.
Proof.
  intros (A1 & A2 & A3 & A4) (B1 & B2 & B3 & B4). repeat split; congruence.
Qed.

Lemma quiet_inv (d d' : Driver) : quiet d d' -> dataset_inv d -> dataset_inv d'.
Proof.
  intros (A1 & A2 & A3 & A4) (I1 & I2 & I3). unfold dataset_inv.
  rewrite A1, A2, A3, A4. auto.
Qed.

Lemma maybe_adapt_quiet (a : Args) (d d1 : Driver) :
  maybe_adapt a d = Ok d1 -> quiet d d1.
Proof.
  unfold maybe_adapt, py_mod. destruct (param_noise_interval a =? 0); [discriminate |].
  simpl. destruct (_ && _).
  - unfold adapt_param_noise. break_lets. destruct (pnoise d); [| discriminate].
    intros [= <-]. unfold quiet, dataset_vars. simpl.
    rewrite rollout_obs_app, json_dumps_app. simpl. rewrite !app_nil_r.
    repeat split; reflexivity.
  - intros [= <-]. apply quiet_refl.
Qed.

Lemma update_call_quiet (a : Args) (d d' : Driver) :
  update_call a d = Ok d' -> quiet d d'.
Proof.
  unfold update_call. destruct (adversary_update _ _ _); [| discriminate].
  simpl. break_lets. intros [= <-]. unfold quiet, dataset_vars. simpl.
  rewrite rollout_obs_app, json_dumps_app. simpl. rewrite !app_nil_r.
  repeat split; reflexivity.
Qed.

Lemma train_step_quiet (a : Args) (d d' : Driver) :
  train_step a d = Ok d' -> quiet d d'.
Proof.
  unfold train_step. destruct (maybe_adapt a d) as [d1 |] eqn:H1; [| discriminate].
  simpl. intros H2. eapply quiet_trans.
  - eapply maybe_adapt_quiet, H1.
  - eapply update_call_quiet, H2.
Qed.

Lemma update_phase_quiet (a : Args) (d d' : Driver) :
  update_phase a d = Ok d' -> quiet d d'.
Proof.
  unfold update_phase. destruct (_ >? _).
  - destruct (for_range _ _ d) as [d1 |] eqn:H1; [| discriminate].
    simpl. intros [= <-].
    assert (Hq : quiet d d1).
    { eapply (for_range_inv (quiet d)); [| apply quiet_refl | exact H1].
      intros s s' Hs Hstep. eapply quiet_trans; [exact Hs |].
      eapply train_step_quiet, Hstep. }
    eapply quiet_trans; [exact Hq |]. repeat split; reflexivity.
  - intros [= <-]. apply quiet_refl.
Qed.

Lemma rollout_phase_inv (a : Args) (d : Driver) :
  dataset_inv d -> dataset_inv (rollout_phase a d).
Proof.
  intros (I1 & I2 & I3).
  destruct (rollout_phase_spec a d) as (os & R1 & R2 & R3 & R4 & _ & _ & _ & _ & _ & _ & R11).
  unfold dataset_inv, dataset_vars in *.
  rewrite R1, R3, R4, R11, I1, I3, fold_left_app, length_app, R2.
  repeat split; auto. lia.
Qed.

Lemma cycle_inv (a : Args) (d d' : Driver) :
  dataset_inv d -> cycle a d = Ok d' -> dataset_inv d'.
Proof.
  intros Hinv. unfold cycle.
  destruct (update_phase a (rollout_phase a d)) as [d2 |] eqn:H2; [| discriminate].
  simpl. intros [= <-].
  pose proof (rollout_phase_inv a d Hinv) as H1.
  pose proof (quiet_inv _ _ (update_phase_quiet _ _ _ H2) H1) as (J1 & J2 & J3).
  destruct (eval_phase_frame a d2) as (E1 & _ & _ & _ & E5 & _ & _ & _ & _ & E10 & E11).
  destruct (save_frame (eval_phase a d2)) as (S1 & _ & _ & _ & S5 & _ & _ & _ & S9 & S10).
  unfold dataset_inv, dataset_vars in *.
  rewrite S1, S5, S9, S10, E1, E5, E10, E11. auto.
Qed.

Lemma training_inv (a : Args) (nb : Z) (d d' : Driver) :
  dataset_inv d -> training a nb d = Ok d' -> dataset_inv d'.
Proof.
  unfold training. apply for_range_inv. intros s s'. unfold epoch.
  apply for_range_inv. intros t t'. apply cycle_inv.
Qed.

(** C8 (amended). A run that ends serializes the dataset once, as its last
    act.  The dataset groups records by episode index; the records of an
    episode are one per pair of consecutive rollout steps of that episode,
    holding the reward, state, termination flag and info of the first step
    of the pair and the protagonist and adversary mean actions of the
    second; the last step of an episode opens no record. *)
Theorem dataset_export (c : Cli) (d : Driver) :
  main c = Ok d ->
  exists pre,
    trace d = pre ++ [EvJsonDump (hacky_store d)] /\
    json_dumps pre = [] /\
    json_dumps (trace d) = [hacky_store d] /\
    total_steps d = Z.of_nat (length (rollout_obs pre)) /\
    forall j,
      records_at (hacky_store d) j = pair_up (episode_at 0 (episodes (rollout_obs pre)) j).
Proof.
  unfold main. intros H.
  destruct (derive_args (parse_args c)) as [a |]; [| discriminate]. simpl in H.
  destruct (setup a) as [[nb d0] |] eqn:Hs; [| discriminate]. simpl in H.
  destruct (training (incr_ratio a) nb d0) as [d1 |] eqn:Ht; [| discriminate].
  simpl in H.
  destruct (make_dataset_dir dataset_dir_name); [| discriminate]. simpl in H.
  injection H as <-.
  destruct (setup_spec a nb d0 Hs) as (_ & _ & _ & _ & Hinv0 & _).
  destruct (training_inv _ _ _ _ Hinv0 Ht) as (I1 & I2 & I3).
  exists (trace d1). simpl. split; [reflexivity |]. split; [exact I2 |].
  split; [rewrite json_dumps_app, I2; reflexivity |].
  split; [exact I3 |].
  intros j. rewrite <- dataset_fold_from_start.
  unfold dataset_vars in I1. rewrite <- I1. reflexivity.
Qed.

End Dataset.

Lemma dataset_export_witness :
  exists (d : @Driver Toy.friendly) pre,
    main Toy.small_cli = Ok d /\
    trace d = pre ++ [EvJsonDump (hacky_store d)] /\
    json_dumps (trace d) = [hacky_store d] /\
    total_steps d = Z.of_nat (length (rollout_obs pre)).
Proof.
  destruct (main_total (W := Toy.friendly) Toy.small_cli
              (set_env_name Toy.args0 "HalfCheetah-v4") 2) as [d Hd].
  - reflexivity.
  - reflexivity.
  - simpl. lia.
  - reflexivity.
  - reflexivity.
  - destruct (dataset_export (W := Toy.friendly) Toy.small_cli d Hd)
      as (pre & Htr & _ & Hdump & Htot & _).
    exists d, pre. repeat split; assumption.
Defined.

(** C8, as claimed, fails on the counter world: the run makes 16 rollout
    steps and exports 10 records, and the first record holds the state of
    the first step (0) with the protagonist mean of the second (10, the
    first step's being 0). *)
Lemma dataset_counterexample :
  Toy.outcome total_steps (main Toy.small_cli) = Some 16 /\
  Toy.outcome (fun d => length (all_records (hacky_store d))) (main Toy.small_cli)
    = Some 10%nat /\
  Toy.outcome Toy.first_step (main Toy.small_cli) = Some (Some (0, 0)) /\
  Toy.outcome Toy.first_record (main Toy.small_cli) = Some (Some (0, Some 10)).
Proof.
  repeat split; vm_compute; reflexivity.
Qed.

(** ** Bookkeeping of the steps *)

Section MoreSteps.
Context `{W : World}.

Lemma pickle_dumps_app (t1 t2 : list Event) :
  pickle_dumps (t1 ++ t2) = pickle_dumps t1 ++ pickle_dumps t2.
Proof. apply omap_app. Qed.

Lemma save_calls_app (t1 t2 : list Event) :
  save_calls (t1 ++ t2) = (save_calls t1 + save_calls t2)%nat.
Proof. unfold save_calls. rewrite omap_app, length_app. reflexivity. Qed.

Lemma ordered_upto_mono (n m : Z) (l : list (Z * Scalar)) :
  n <= m -> ordered_upto n l -> ordered_upto m l.
Proof.
  intros Hnm. induction l as [| e l IH]; simpl; [auto |].
  intros (H1 & H2 & H3). repeat split; auto. lia.
Qed.

Lemma ordered_upto_bound (n : Z) (l : list (Z * Scalar)) :
  ordered_upto n l -> Forall (fun e => e.1 <= n) l.
Proof.
  induction l as [| e l IH]; simpl; [constructor |].
  intros (H1 & H2 & H3). constructor; auto.
Qed.

Lemma ordered_upto_snoc (n m : Z) (l : list (Z * Scalar)) (x : Scalar) :
  n <= m -> ordered_upto n l -> ordered_upto m (l ++ [(m, x)]).
Proof.
  intros Hnm. induction l as [| e l IH]; simpl.
  - intros _. repeat split; [constructor | lia].
  - intros (H1 & H2 & H3). split; [| split; [lia | auto]].
    apply Forall_app. split; [exact H1 |]. repeat constructor. simpl. lia.
Qed.

(** One rollout step on the results and the episode counter. *)
Lemma rollout_step_results (a : Args) (d : Driver) :
  exists o x,
    rollout_obs (trace (rollout_step a d)) = rollout_obs (trace d) ++ [o] /\
    ep (rollout_step a d) = ep d + (if terminal o then 1 else 0) /\
    r_train_rewards (results_dict (rollout_step a d)) =
      r_train_rewards (results_dict d) ++
        (if terminal o then [(total_steps d + 1, x)] else []) /\
    r_eval_rewards (results_dict (rollout_step a d)) = r_eval_rewards (results_dict d) /\
    (hacky_indict (rollout_step a d) = None <-> terminal o = true) /\
    pickle_dumps (trace (rollout_step a d)) = pickle_dumps (trace d) /\
    save_calls (trace (rollout_step a d)) = save_calls (trace d).
Proof.
  unfold rollout_step. break_lets. subst.
  match goal with
  | H : dataset_step _ ?o = _ |- _ =>
      exists o; unfold dataset_step, terminal in *; simpl in H
  end.
  destruct (_ || _); break_lets; eexists; simpl;
    rewrite ?pickle_dumps_app, ?save_calls_app, ?rollout_obs_app; simpl;
    rewrite ?app_nil_r, ?Nat.add_0_r;
    match goal with
    | H : (_, _, _) = (_, _, _) |- _ => injection H as <- <- <-
    end;
    repeat split; try reflexivity; try lia; try discriminate; auto.
Qed.

(** One evaluation step on the results. *)
Lemma eval_step_results (d : Driver) :
  (r_eval_rewards (results_dict (eval_step d)) = r_eval_rewards (results_dict d) \/
   exists x, r_eval_rewards (results_dict (eval_step d)) =
             r_eval_rewards (results_dict d) ++ [(total_steps d, x)]) /\
  r_train_rewards (results_dict (eval_step d)) = r_train_rewards (results_dict d) /\
  pickle_dumps (trace (eval_step d)) = pickle_dumps (trace d) /\
  save_calls (trace (eval_step d)) = save_calls (trace d).
Proof.
  unfold eval_step. break_lets. subst.
  destruct (_ || _); break_lets; simpl;
    rewrite ?pickle_dumps_app, ?save_calls_app; simpl;
    rewrite ?app_nil_r, ?Nat.add_0_r; repeat split; eauto.
Qed.

(** An update step that returns has made the call the schedule asks for
    at the current [train_steps], and has left the results alone. *)
Lemma train_step_schedule (a : Args) (d d' : Driver) :
  train_step a d = Ok d' ->
  train_steps d' = train_steps d + 1 /\
  update_flags (trace d') = update_flags (trace d) ++
    [adversary_turn (train_steps d) (ratio a) (flip_ratio a)] /\
  results_dict d' = results_dict d /\
  pickle_dumps (trace d') = pickle_dumps (trace d) /\
  save_calls (trace d') = save_calls (trace d).
Proof.
  unfold train_step. destruct (maybe_adapt a d) as [d1 |] eqn:H1; [| discriminate].
  simpl. intros H2.
  assert (A : train_steps d1 = train_steps d /\
              update_flags (trace d1) = update_flags (trace d) /\
              results_dict d1 = results_dict d /\
              pickle_dumps (trace d1) = pickle_dumps (trace d) /\
              save_calls (trace d1) = save_calls (trace d)).
  { revert H1. unfold maybe_adapt, py_mod.
    destruct (param_noise_interval a =? 0); [discriminate |]. simpl.
    destruct (_ && _).
    - unfold adapt_param_noise. break_lets. destruct (pnoise d); [| discriminate].
      intros [= <-]. simpl.
      rewrite update_flags_app, pickle_dumps_app, save_calls_app. simpl.
      rewrite !app_nil_r, Nat.add_0_r. repeat split; reflexivity.
    - intros [= <-]. repeat split; reflexivity. }
  destruct A as (A1 & A2 & A3 & A4 & A5).
  revert H2. unfold update_call, adversary_update, py_mod.
  destruct (Z.eqb_spec (ratio a) 0) as [| Hr]; [discriminate |].
  pose proof (adversary_update_nonzero (train_steps d1) _ (flip_ratio a) Hr) as Hadv.
  unfold adversary_update, py_mod in Hadv.
  destruct (Z.eqb_spec (ratio a) 0) as [| _]; [contradiction |].
  rewrite Hadv. simpl. break_lets. intros [= <-]. simpl.
  rewrite update_flags_app, pickle_dumps_app, save_calls_app. simpl.
  rewrite !app_nil_r, Nat.add_0_r, A1, A2, A3, A4, A5. repeat split; reflexivity.
Qed.

Lemma save_results (d : Driver) :
  results_dict (save d) = results_dict d /\
  pickle_dumps (trace (save d)) = pickle_dumps (trace d) ++ [results_dict d] /\
  save_calls (trace (save d)) = S (save_calls (trace d)).
Proof.
  unfold save, log_events. simpl. rewrite pickle_dumps_app, save_calls_app.
  repeat split; auto. change (save_calls [EvSaveModel; EvPickleDump (results_dict d); EvVisPlot]) with 1%nat.
  lia.
Qed.

(** Every step of the run keeps [run_inv]. *)
Lemma rollout_step_run_inv (a : Args) (d : Driver) :
  run_inv a d -> run_inv a (rollout_step a d).
Proof.
  intros ((n & Hn & Hfl) & Hep & Ht & He & Hv & Hp & Ha).
  destruct (rollout_step_results a d) as (o & x & _ & R2 & R3 & R4 & _).
  destruct (rollout_step_spec a d)
    as (o' & _ & _ & S3 & S4 & _ & _ & S7 & S8 & _).
  injection S7 as S7v S7p S7a.
  unfold run_inv. rewrite S3, S4, S8, R2, R3, R4, S7v, S7p, S7a.
  split; [exists n; auto |].
  split.
  { destruct (terminal o); rewrite ?app_nil_r, ?length_app; simpl; lia. }
  split.
  { destruct (terminal o).
    - apply ordered_upto_snoc with (n := total_steps d); [lia | exact Ht].
    - rewrite app_nil_r. apply ordered_upto_mono with (n := total_steps d); [lia | exact Ht]. }
  repeat split; auto; eapply ordered_upto_mono; try eassumption; lia.
Qed.

Lemma eval_step_run_inv (a : Args) (d : Driver) :
  run_inv a d -> run_inv a (eval_step d).
Proof.
  intros ((n & Hn & Hfl) & Hep & Ht & He & Hv & Hp & Ha).
  destruct (eval_step_results d) as (R1 & R2 & _).
  destruct (eval_step_spec d)
    as (_ & _ & S3 & S4 & _ & _ & S7 & _ & S9 & S10 & _).
  injection S7 as S7e _ _. injection S9 as S9v S9p S9a.
  unfold run_inv. rewrite S3, S4, S10, S7e, R2, S9v, S9p, S9a.
  split; [exists n; auto |].
  repeat split; auto.
  destruct R1 as [-> | [x ->]]; [exact He |].
  apply ordered_upto_snoc with (n := total_steps d); [lia | exact He].
Qed.

Lemma train_step_run_inv (a : Args) (d d' : Driver) :
  run_inv a d -> train_step a d = Ok d' -> run_inv a d'.
Proof.
  intros ((n & Hn & Hfl) & Hep & Ht & He & Hv & Hp & Ha) Hstep.
  destruct (train_step_schedule a d d' Hstep) as (T1 & T2 & T3 & _).
  destruct (train_step_quiet a d d' Hstep) as (Q1 & _ & _ & Q4).
  unfold dataset_vars in Q1. injection Q1 as Q1 _ _.
  unfold run_inv. rewrite T1, T2, T3, Q1, Q4.
  split.
  - exists (S n). split; [lia |].
    rewrite seq_S, map_app, Hfl, Hn. reflexivity.
  - repeat split; auto.
Qed.

Lemma record_losses_run_inv (a : Args) (d : Driver) :
  run_inv a d -> run_inv a (record_losses d).
Proof.
  intros (Hs & Hep & Ht & He & Hv & Hp & Ha).
  unfold run_inv, record_losses. simpl.
  rewrite !map_app, Hp, Ha. simpl.
  repeat split; auto.
  apply ordered_upto_snoc with (n := total_steps d); [lia | exact Hv].
Qed.

Lemma save_run_inv (a : Args) (d : Driver) : run_inv a d -> run_inv a (save d).
Proof.
  intros ((n & Hn & Hfl) & Hrest). unfold run_inv, save, log_events. simpl.
  rewrite update_flags_app. simpl. rewrite app_nil_r.
  split; [exists n; auto | exact Hrest].
Qed.

Lemma cycle_run_inv (a : Args) (d d' : Driver) :
  run_inv a d -> cycle a d = Ok d' -> run_inv a d'.
Proof.
  intros Hinv. unfold cycle.
  assert (H1 : run_inv a (rollout_phase a d)).
  { unfold rollout_phase.
    induction (range_len (num_rollout_steps a)) as [| n IH]; [exact Hinv |].
    rewrite Nat.iter_succ. apply rollout_step_run_inv, IH. }
  destruct (update_phase a (rollout_phase a d)) as [d2 |] eqn:H2; [| discriminate].
  simpl. intros [= <-].
  assert (H2' : run_inv a d2).
  { revert H2. unfold update_phase. destruct (_ >? _).
    - destruct (for_range _ _ _) as [d1 |] eqn:Hloop; [| discriminate].
      simpl. intros [= <-]. apply record_losses_run_inv.
      eapply (for_range_inv (run_inv a)); [| exact H1 | exact Hloop].
      intros s s' Hs Hstep. eapply train_step_run_inv; eauto.
    - intros [= <-]. exact H1. }
  apply save_run_inv. unfold eval_phase.
  induction (range_len (num_rollout_steps a)) as [| n IH]; [exact H2' |].
  rewrite Nat.iter_succ. apply eval_step_run_inv, IH.
Qed.

Lemma training_run_inv (a : Args) (nb : Z) (d d' : Driver) :
  run_inv a d -> training a nb d = Ok d' -> run_inv a d'.
Proof.
  unfold training. apply for_range_inv. intros s s'. unfold epoch.
  apply for_range_inv. intros t t'. apply cycle_run_inv.
Qed.

End MoreSteps.

(** ** Facts about a whole run *)

Section WholeRun.
Context `{W : World}.

(** The parts of a run that ended. *)
Lemma main_inv (c : Cli) (d : Driver) :
  main c = Ok d ->
  exists a nb d0 d1,
    derive_args (parse_args c) = Ok a /\
    setup a = Ok (nb, d0) /\
    training (incr_ratio a) nb d0 = Ok d1 /\
    d = log_events d1 [EvJsonDump (hacky_store d1)].
Proof.
  unfold main. intros H.
  destruct (derive_args (parse_args c)) as [a |]; [| discriminate]. simpl in H.
  destruct (setup a) as [[nb d0] |] eqn:Hs; [| discriminate]. simpl in H.
  destruct (training (incr_ratio a) nb d0) as [d1 |] eqn:Ht; [| discriminate].
  simpl in H.
  destruct (make_dataset_dir dataset_dir_name); [| discriminate]. simpl in H.
  injection H as <-. exists a, nb, d0, d1. auto.
Qed.

(** A run reaches the end of its training loop when its arguments derive,
    its seed is one the generators take, its number of epochs can be
    computed and the cadence of the parameter noise is not zero. *)
Lemma training_total (c : Cli) (a : Args) (nb : Z) :
  derive_args (parse_args c) = Ok a ->
  set_seed_everywhere (seed a) = Ok tt ->
  param_noise_interval a <> 0 ->
  compute_nb_epochs a = Ok nb ->
  exists d0 d1, setup a = Ok (nb, d0) /\ training (incr_ratio a) nb d0 = Ok d1.
Proof.
  intros Hderive Hseed Hi Hnb.
  destruct (setup_total a nb Hseed Hnb) as (d0 & Hs).
  destruct (setup_spec a nb d0 Hs) as (_ & _ & _ & Hacc & _ & Hpn).
  destruct (derive_args_fields _ _ Hderive) as (Hr & _).
  assert (Hrun0 : runnable (incr_ratio a) d0).
  { repeat split; try assumption. simpl. rewrite Hr.
    destruct (method_eqb _ _); lia. }
  destruct (training_advances (incr_ratio a) nb d0 Hrun0 Hacc) as (d1 & Hd1 & _).
  exists d0, d1. auto.
Qed.

Lemma setup_run_inv (a a' : Args) (nb : Z) (d0 : Driver) :
  setup a = Ok (nb, d0) -> run_inv a' d0.
Proof.
  unfold setup, make_base_dir. intros H.
  destruct (set_seed_everywhere (seed a)); simpl in H; [| discriminate].
  destruct (os_makedirs _); simpl in H;
    (destruct (compute_nb_epochs a) as [nb' | err]; simpl in H; [| discriminate]);
    break_lets; injection H as <- <-; unfold run_inv; simpl;
    (split; [exists O; split; reflexivity |]); repeat split; auto.
Qed.

(** The noise objects a run starts with. *)
Lemma setup_noise (a : Args) (nb : Z) (d0 : Driver) :
  setup a = Ok (nb, d0) ->
  (is_Some (ounoise d0) <-> ou_noise a = true) /\
  (is_Some (pnoise d0) <-> param_noise a = true).
Proof.
  unfold setup, make_base_dir, reset_noise. intros H.
  destruct (set_seed_everywhere (seed a)); simpl in H; [| discriminate].
  destruct (os_makedirs _); simpl in H;
    (destruct (compute_nb_epochs a) as [nb' | err]; simpl in H; [| discriminate]);
    break_lets; injection H as <- <-; simpl;
    destruct (ou_noise a), (param_noise a); simpl;
    repeat split; intros Hx; eauto; try discriminate;
    destruct Hx; discriminate.
Qed.

Lemma log_events_frame (d : Driver) (evs : list Event) :
  train_steps (log_events d evs) = train_steps d /\
  total_steps (log_events d evs) = total_steps d /\
  ep (log_events d evs) = ep d /\
  hacky_store (log_events d evs) = hacky_store d /\
  results_dict (log_events d evs) = results_dict d /\
  trace (log_events d evs) = trace d ++ evs.
Proof. repeat split; reflexivity. Qed.

(** A run that ended satisfies [run_inv] for the arguments it trained with. *)
Lemma main_run_inv (c : Cli) (d : Driver) :
  main c = Ok d ->
  exists a, derive_args (parse_args c) = Ok a /\ run_inv (incr_ratio a) d.
Proof.
  intros H. destruct (main_inv c d H) as (a & nb & d0 & d1 & Ha & Hs & Ht & ->).
  exists a. split; [exact Ha |].
  pose proof (training_run_inv _ _ _ _ (setup_run_inv a (incr_ratio a) nb d0 Hs) Ht)
    as ((n & Hn & Hfl) & Hrest).
  unfold run_inv, log_events. simpl. rewrite update_flags_app. simpl.
  rewrite app_nil_r. split; [exists n; auto | exact Hrest].
Qed.

End WholeRun.

Lemma small_run_ends : exists d, @main Toy.friendly Toy.small_cli = Ok d.
Proof.
  apply (main_total (W := Toy.friendly) Toy.small_cli
           (set_env_name Toy.args0 "HalfCheetah-v4") 2); try reflexivity.
  simpl. lia.
Qed.

(** ** Configuration and its errors *)

(** [load_env_name] knows exactly three environment types, spelled in
    lower case; each gives its gym id, and any other name raises an error
    that carries the name. *)
Lemma load_env_name_table (env_type : string) :
  (env_type = "halfcheetah"%string /\ load_env_name env_type = Ok "HalfCheetah-v4"%string) \/
  (env_type = "hopper"%string /\ load_env_name env_type = Ok "Hopper-v4"%string) \/
  (env_type = "walker2d"%string /\ load_env_name env_type = Ok "Walker2d-v4"%string) \/
  (env_type <> "halfcheetah"%string /\ env_type <> "hopper"%string /\
   env_type <> "walker2d"%string /\
   load_env_name env_type = Raise (EnvironmentNotAvailable env_type)).
Proof.
  unfold load_env_name.
  destruct (String.eqb_spec env_type "halfcheetah") as [-> | H1]; [left; auto |].
  destruct (String.eqb_spec env_type "hopper") as [-> | H2]; [right; left; auto |].
  destruct (String.eqb_spec env_type "walker2d") as [-> | H3];
    [right; right; left; auto |].
  right. right. right. auto.
Qed.

Lemma derive_args_unchanged (a a' : Args) :
  derive_args a = Ok a' ->
  (ou_noise a', param_noise a', batch_size a', num_epochs a', num_epochs_cycles a',
   num_rollout_steps a', num_steps a', param_noise_interval a',
   number_of_train_steps a', method_ a', flip_ratio a', seed a')
  = (ou_noise a, param_noise a, batch_size a, num_epochs a, num_epochs_cycles a,
     num_rollout_steps a, num_steps a, param_noise_interval a,
     number_of_train_steps a, method_ a, flip_ratio a, seed a).
Proof.
  unfold derive_args. intros H.
  destruct (load_env_name _) as [n | e]; simpl in H; [| discriminate].
  injection H as <-. destruct (exploration_method a); reflexivity.
Qed.

Section RunErrors.
Context `{W : World}.

(** X2. A run on an environment type that [load_env_name] does not know
    ends with that error, whatever the world: nothing of the world has
    been asked for by then. *)
Theorem unknown_environment_fails_first (c : Cli) :
  default "halfcheetah"%string (cli_env_name c) <> "halfcheetah"%string ->
  default "halfcheetah"%string (cli_env_name c) <> "hopper"%string ->
  default "halfcheetah"%string (cli_env_name c) <> "walker2d"%string ->
  main c = Raise (EnvironmentNotAvailable (default "halfcheetah"%string (cli_env_name c))).
Proof.
  intros H1 H2 H3. unfold main, derive_args.
  assert (Hl : load_env_name (default "halfcheetah"%string (cli_env_name c)) =
               Raise (EnvironmentNotAvailable (default "halfcheetah"%string (cli_env_name c)))).
  { destruct (load_env_name_table (default "halfcheetah"%string (cli_env_name c)))
      as [[E _] | [[E _] | [[E _] | (_ & _ & _ & E)]]]; try contradiction. exact E. }
  destruct (exploration_method (parse_args c)); simpl; simpl in Hl; rewrite Hl; reflexivity.
Qed.

(** X3. Since [--num_steps] always has a value (2000000 when not given),
    a run that is given [--num_epochs], on a known environment and with a
    seed that the generators of line 96 take, fails on the assertion of
    line 164, before the environment is reset. *)
Theorem num_epochs_always_aborts (c : Cli) (e : Z) (gym_id : string) :
  cli_num_epochs c = Some e ->
  load_env_name (default "halfcheetah"%string (cli_env_name c)) = Ok gym_id ->
  set_seed_everywhere (cli_seed c) = Ok tt ->
  main c = Raise AssertionError.
Proof.
  intros He Hl Hseed. unfold main, derive_args.
  destruct (exploration_method (parse_args c)); simpl; simpl in Hl; rewrite Hl; simpl;
    unfold setup, make_base_dir, compute_nb_epochs; simpl; rewrite Hseed, He; simpl;
    destruct (os_makedirs _); reflexivity.
Qed.

(** X4. When num_epochs_cycles * num_rollout_steps is zero, a run on a
    known environment, without [--num_epochs] and with a seed that the
    generators of line 96 take, fails with ZeroDivisionError while
    computing the number of epochs at line 165. *)
Theorem zero_sized_cycle_aborts (c : Cli) (gym_id : string) :
  cli_num_epochs c = None ->
  load_env_name (default "halfcheetah"%string (cli_env_name c)) = Ok gym_id ->
  set_seed_everywhere (cli_seed c) = Ok tt ->
  default 20 (cli_num_epochs_cycles c) * default 100 (cli_num_rollout_steps c) = 0 ->
  main c = Raise ZeroDivisionError.
Proof.
  intros He Hl Hseed Hz. unfold main, derive_args.
  destruct (exploration_method (parse_args c)); simpl; simpl in Hl; rewrite Hl; simpl;
    unfold setup, make_base_dir, compute_nb_epochs, py_floordiv; simpl;
    rewrite Hseed, He, Hz; simpl; destruct (os_makedirs _); reflexivity.
Qed.

(** X5. With a parameter-noise cadence of zero, an update phase that is
    entered with at least one update step fails with ZeroDivisionError in
    its first step, whether parameter noise is enabled or not: the modulo
    of line 227 is taken before the flag is read. *)
Theorem zero_interval_breaks_update (a : Args) (d : Driver) :
  param_noise_interval a = 0 ->
  memory_len (agent d) > batch_size a ->
  0 < number_of_train_steps a ->
  update_phase a d = Raise ZeroDivisionError.
Proof.
  intros Hi Hgt Hn. rewrite (update_phase_entered a d Hgt).
  unfold range_len. destruct (Z.to_nat (number_of_train_steps a)) as [| n] eqn:Hk; [lia |].
  simpl. unfold train_step, maybe_adapt, py_mod. rewrite Hi. reflexivity.
Qed.

(** X6. When the datasets directory does not exist and cannot be made,
    a run whose set-up and training completed ends with the error of
    [os.makedirs] and dumps no dataset: unlike the checkpoint directory,
    this creation is not guarded. *)
Theorem dataset_dir_failure_loses_run (c : Cli) (a : Args) (nb : Z)
    (d0 d1 : Driver) (e : exn) :
  derive_args (parse_args c) = Ok a ->
  setup a = Ok (nb, d0) ->
  training (incr_ratio a) nb d0 = Ok d1 ->
  os_path_exists dataset_dir_name = false ->
  os_makedirs dataset_dir_name = Raise e ->
  main c = Raise e.
Proof.
  intros Hderive Hs Ht Hex Hmk.
  unfold main. rewrite Hderive. simpl. rewrite Hs. simpl. rewrite Ht. simpl.
  unfold make_dataset_dir. rewrite Hex, Hmk. reflexivity.
Qed.

(** X7. Action noise cannot be switched off: for every command line the
    run starts with an Ornstein-Uhlenbeck noise object, and it also has a
    parameter-noise object exactly when [--param_noise] is given, so both
    kinds of noise are then passed to action selection together. *)
Theorem ou_noise_always_on (c : Cli) (a : Args) (nb : Z) (d0 : Driver) :
  derive_args (parse_args c) = Ok a ->
  setup a = Ok (nb, d0) ->
  is_Some (ounoise d0) /\ (is_Some (pnoise d0) <-> cli_param_noise c = true).
Proof.
  intros Hderive Hs.
  pose proof (derive_args_unchanged _ _ Hderive) as Hf.
  injection Hf as Hou Hpn _ _ _ _ _ _ _ _ _ _.
  destruct (setup_noise a nb d0 Hs) as (Ho & Hp).
  rewrite Hpn in Hp. rewrite Hou in Ho. simpl in Ho, Hp.
  split; [apply Ho; reflexivity | exact Hp].
Qed.

(** X22. On a known environment, a run without [--seed] ends with the
    TypeError of line 43 and a run whose seed is outside 0 .. 2**32 - 1
    with the ValueError of line 42: both leave at line 96, before the
    agent is built, the run directory made or the number of epochs
    computed, so that neither the assertion of line 164 nor the division
    of line 165 is reached. *)
Theorem unusable_seed_aborts (c : Cli) (gym_id : string) :
  load_env_name (default "halfcheetah"%string (cli_env_name c)) = Ok gym_id ->
  (cli_seed c = None -> main c = Raise TypeError) /\
  (forall s, cli_seed c = Some s -> s < 0 \/ 4294967295 < s ->
     main c = Raise ValueError).
Proof.
  intros Hl.
  assert (Hmain : forall e, set_seed_everywhere (cli_seed c) = Raise e ->
                            main c = Raise e).
  { intros e Hseed. unfold main, derive_args.
    destruct (exploration_method (parse_args c)); simpl; simpl in Hl; rewrite Hl;
      simpl; unfold setup; simpl; rewrite Hseed; reflexivity. }
  split.
  - intros Hnone. apply Hmain. rewrite Hnone. reflexivity.
  - intros s Hsome Hout. apply Hmain. rewrite Hsome. unfold set_seed_everywhere.
    destruct ((0 <=? s) && (s <=? 4294967295)) eqn:Hin; [| reflexivity].
    apply andb_true_iff in Hin as [H1 H2]. lia.
Qed.

End RunErrors.

Lemma unknown_environment_fails_first_witness :
  @main Toy.friendly Toy.ant_cli = Raise (EnvironmentNotAvailable "ant").
Proof.
  apply (unknown_environment_fails_first (W := Toy.friendly) Toy.ant_cli);
    simpl; discriminate.
Defined.

Lemma num_epochs_always_aborts_witness :
  @main Toy.friendly Toy.epochs_cli = Raise AssertionError.
Proof.
  apply (num_epochs_always_aborts (W := Toy.friendly) Toy.epochs_cli 3 "HalfCheetah-v4");
    reflexivity.
Defined.

Lemma zero_sized_cycle_aborts_witness :
  @main Toy.friendly Toy.no_rollout_cli = Raise ZeroDivisionError.
Proof.
  apply (zero_sized_cycle_aborts (W := Toy.friendly) Toy.no_rollout_cli "HalfCheetah-v4");
    reflexivity.
Defined.

Lemma unusable_seed_aborts_witness :
  @main Toy.friendly Toy.seedless_cli = Raise TypeError /\
  @main Toy.friendly Toy.negative_seed_cli = Raise ValueError.
Proof.
  split.
  - apply (unusable_seed_aborts (W := Toy.friendly) Toy.seedless_cli "HalfCheetah-v4");
      reflexivity.
  - apply (unusable_seed_aborts (W := Toy.friendly) Toy.negative_seed_cli
             "HalfCheetah-v4" eq_refl) with (s := -1); [reflexivity | lia].
Defined.

Lemma zero_interval_breaks_update_witness :
  param_noise Toy.zero_interval_args = false /\
  @update_phase Toy.friendly Toy.zero_interval_args Toy.three_stored
    = Raise ZeroDivisionError.
Proof.
  split; [reflexivity |].
  apply (zero_interval_breaks_update (W := Toy.friendly)); simpl; lia.
Defined.

Lemma dataset_dir_failure_loses_run_witness :
  @os_makedirs Toy.no_datasets (@base_dir_name Toy.no_datasets Toy.args0) = Ok tt /\
  @main Toy.no_datasets Toy.small_cli = Raise PermissionError.
Proof.
  split; [reflexivity |].
  destruct (training_total (W := Toy.no_datasets) Toy.small_cli
              (set_env_name Toy.args0 "HalfCheetah-v4") 2)
    as (d0 & d1 & Hs & Ht).
  - reflexivity.
  - reflexivity.
  - simpl. lia.
  - reflexivity.
  - apply (dataset_dir_failure_loses_run (W := Toy.no_datasets) Toy.small_cli
             (set_env_name Toy.args0 "HalfCheetah-v4") 2 d0 d1 PermissionError);
      [reflexivity | exact Hs | exact Ht | reflexivity | reflexivity].
Defined.

Lemma ou_noise_always_on_witness :
  exists d0 : @Driver Toy.friendly,
    setup (set_env_name Toy.args0 "HalfCheetah-v4") = Ok (2, d0) /\
    is_Some (ounoise d0).
Proof.
  destruct (setup_total (W := Toy.friendly)
              (set_env_name Toy.args0 "HalfCheetah-v4") 2 eq_refl eq_refl) as [d0 Hs].
  exists d0. split; [exact Hs |].
  apply (ou_noise_always_on (W := Toy.friendly) Toy.small_cli _ 2 d0 eq_refl Hs).
Defined.

(** ** The share of the two players *)

Lemma count_true_hit (z : Z) (n s : nat) :
  count_true (map (fun i => Z.of_nat i =? z) (seq s n)) =
  if (Z.of_nat s <=? z) && (z <? Z.of_nat (s + n)) then 1%nat else 0%nat.
Proof.
  revert s. induction n as [| n IH]; intros s.
  - simpl. destruct (Z.leb_spec (Z.of_nat s) z), (Z.ltb_spec z (Z.of_nat (s + 0)));
      simpl; try reflexivity; lia.
  - simpl. rewrite IH.
    destruct (Z.eqb_spec (Z.of_nat s) z),
      (Z.leb_spec (Z.of_nat (S s)) z), (Z.ltb_spec z (Z.of_nat (S s + n))),
      (Z.leb_spec (Z.of_nat s) z), (Z.ltb_spec z (Z.of_nat (s + S n)));
      simpl; try reflexivity; lia.
Qed.

Lemma count_true_negb (l : list bool) :
  (count_true (map negb l) + count_true l = length l)%nat.
Proof.
  induction l as [| b l IH]; simpl; [reflexivity |]. destruct b; simpl; lia.
Qed.

Lemma turn_in_window (ts m i : Z) :
  0 < m -> 0 <= i < m ->
  ((ts + i) mod m =? 0) = (i =? (- ts) mod m).
Proof.
  intros Hm Hi.
  pose proof (Z.mod_pos_bound (- ts) m Hm) as Hb.
  pose proof (Z.div_mod (- ts) m ltac:(lia)) as Hd.
  destruct (Z.eqb_spec i ((- ts) mod m)) as [-> | Hne].
  - apply Z.eqb_eq.
    replace (ts + (- ts) mod m) with ((- ((- ts) / m)) * m) by lia.
    apply Z.mod_mul. lia.
  - apply Z.eqb_neq. intros Hz.
    apply Z.mod_divide in Hz; [| lia]. destruct Hz as [k Hk].
    apply Hne.
    remember ((- ts) / m) as q. remember ((- ts) mod m) as r.
    assert (Hkq : i - r = m * (k + q)) by lia.
    assert (Hzero : k + q = 0) by nia.
    rewrite Hzero in Hkq. lia.
Qed.

(** X8. In any [m] consecutive update steps, [m] being the modulus of
    line 238 (the configured ratio plus one), exactly one trains the
    adversary without flip_ratio, and all but one do with flip_ratio. *)
Theorem adversary_share (ts m : Z) (flip : bool) :
  0 < m ->
  count_true
    (map (fun i => adversary_turn (ts + Z.of_nat i) m flip) (seq 0 (Z.to_nat m)))
  = (if flip then Z.to_nat m - 1 else 1)%nat.
Proof.
  intros Hm.
  assert (Hplain :
    count_true (map (fun i => (ts + Z.of_nat i) mod m =? 0) (seq 0 (Z.to_nat m))) = 1%nat).
  { rewrite (map_ext_in _ (fun i => Z.of_nat i =? (- ts) mod m)).
    - rewrite count_true_hit.
      pose proof (Z.mod_pos_bound (- ts) m Hm) as Hb.
      destruct (Z.leb_spec (Z.of_nat 0) ((- ts) mod m)),
        (Z.ltb_spec ((- ts) mod m) (Z.of_nat (0 + Z.to_nat m)));
        simpl; try reflexivity; lia.
    - intros i Hin. apply in_seq in Hin. apply turn_in_window; lia. }
  destruct flip; unfold adversary_turn.
  - pose proof (count_true_negb
                  (map (fun i => (ts + Z.of_nat i) mod m =? 0) (seq 0 (Z.to_nat m)))) as Hn.
    rewrite map_map, length_map, length_seq, Hplain in Hn. lia.
  - exact Hplain.
Qed.

Lemma adversary_share_witness :
  count_true (map (fun i => adversary_turn (7 + Z.of_nat i) 11 true) (seq 0 11)) = 10%nat.
Proof. apply (adversary_share 7 11 true). lia. Defined.

(** ** What a finished run leaves behind *)

Section RunFacts.
Context `{W : World}.

Lemma dataset_fold_ep (obs : list StepObs) :
  forall h, (fold_left dataset_step obs h).1.1 = h.1.1 + Z.of_nat (count_terminal obs).
Proof.
  induction obs as [| o rest IH]; intros [[k i] s]; simpl; [lia |].
  rewrite IH. unfold terminal. destruct i; simpl; destruct (_ || _); simpl; lia.
Qed.

Lemma dataset_step_ok (h : Z * option Indict * gmap Z (list Indict)) (o : StepObs) :
  dataset_ok h -> dataset_ok (dataset_step h o).
Proof.
  destruct h as [[k i] s]. intros (Hk & Hp & Hs). simpl in *.
  assert (Hstore : forall j l,
            match i with
            | Some d0 => store_append s k (set_actions d0 (so_pr_mu o) (so_adv_mu o))
            | None => s
            end !! j = Some l ->
            0 <= j <= k /\ l <> [] /\ Forall complete_record l).
  { intros j l. destruct i as [p |]; [| apply Hs].
    unfold store_append. destruct (decide (k = j)) as [<- | Hne].
    - rewrite lookup_insert_eq. intros [= <-].
      split; [lia |]. split; [destruct (default [] (s !! k)); discriminate |].
      apply Forall_app. split.
      + destruct (s !! k) as [l0 |] eqn:Hl; simpl; [| constructor].
        apply (Hs k l0 Hl).
      + repeat constructor; simpl; eauto.
    - rewrite lookup_insert_ne by exact Hne. apply Hs. }
  unfold dataset_step, dataset_ok.
  destruct (so_done o || so_trunc o) eqn:Ht; simpl.
  - split; [lia |]. split; [discriminate |].
    intros j l Hl. destruct (Hstore j l Hl) as (H1 & H2 & H3). repeat split; auto; lia.
  - split; [lia |]. split; [| exact Hstore].
    intros p [= <-]. simpl. apply orb_false_iff in Ht. apply Ht.
Qed.

Lemma dataset_fold_ok (obs : list StepObs) :
  forall h, dataset_ok h -> dataset_ok (fold_left dataset_step obs h).
Proof.
  induction obs as [| o rest IH]; intros h Hh; simpl; [exact Hh |].
  apply IH, dataset_step_ok, Hh.
Qed.

Lemma pair_up_length (e : list StepObs) : length (pair_up e) = pred (length e).
Proof.
  induction e as [| o rest IH]; [reflexivity |].
  destruct rest as [| next rest']; [reflexivity |].
  change (pair_up (o :: next :: rest')) with (mk_record o next :: pair_up (next :: rest')).
  simpl length in *. rewrite IH. reflexivity.
Qed.

(** The dataset variables at the end of a run that ended. *)
Lemma main_dataset (c : Cli) (d : Driver) :
  main c = Ok d ->
  dataset_vars d = fold_left dataset_step (rollout_obs (trace d)) (0, None, ∅).
Proof.
  intros H. destruct (main_inv c d H) as (a & nb & d0 & d1 & _ & Hs & Ht & ->).
  destruct (setup_spec a nb d0 Hs) as (_ & _ & _ & _ & Hinv0 & _).
  destruct (training_inv _ _ _ _ Hinv0 Ht) as (I1 & _ & _).
  unfold dataset_vars, log_events in *. simpl.
  rewrite rollout_obs_app. simpl. rewrite app_nil_r. exact I1.
Qed.

(** X9. In the dataset a run exports, every record has its termination
    flag False and carries both mean actions; every key is the index of an
    episode the run reached, and no key holds an empty list. *)
Theorem exported_records_complete (c : Cli) (d : Driver) :
  main c = Ok d ->
  forall j l,
    hacky_store d !! j = Some l ->
    0 <= j <= ep d /\ l <> [] /\ Forall complete_record l.
Proof.
  intros H j l Hl. pose proof (main_dataset c d H) as Hds.
  assert (Hok : dataset_ok (dataset_vars d)).
  { rewrite Hds. apply dataset_fold_ok.
    repeat split; simpl; try lia; try discriminate.
    all: rewrite lookup_empty in *; discriminate. }
  destruct Hok as (_ & _ & Hstore). apply (Hstore j l). exact Hl.
Qed.

(** X10. An episode of n rollout steps leaves n - 1 records in the
    exported dataset (none when n is 0 or 1): its last step, the one whose
    termination flag can be True, is never exported. *)
Theorem episode_record_count (c : Cli) (d : Driver) :
  main c = Ok d ->
  forall j,
    length (records_at (hacky_store d) j) =
    pred (length (episode_at 0 (episodes (rollout_obs (trace d))) j)).
Proof.
  intros H j. pose proof (main_dataset c d H) as Hds.
  rewrite <- pair_up_length, <- dataset_fold_from_start, <- Hds. reflexivity.
Qed.

(** X11. At the end of a run the episode index [ep] is the number of
    rollout steps that ended an episode (done or truncated), and it is the
    number of entries of the train_rewards series. *)
Theorem episode_counter (c : Cli) (d : Driver) :
  main c = Ok d ->
  ep d = Z.of_nat (count_terminal (rollout_obs (trace d))) /\
  ep d = Z.of_nat (length (r_train_rewards (results_dict d))).
Proof.
  intros H. split.
  - pose proof (main_dataset c d H) as Hds.
    pose proof (dataset_fold_ep (rollout_obs (trace d)) (0, None, ∅)) as He.
    rewrite <- Hds in He. simpl in He. exact He.
  - destruct (main_run_inv c d H) as (a & _ & _ & Hep & _). exact Hep.
Qed.

(** X12. The update schedule runs through the whole run without
    restarting at a cycle or an epoch: the update call numbered i (from 0)
    has the flag [i mod m = 0], negated with flip_ratio, where the modulus
    m is 11 for pr_mdp and 2 for the other methods; and train_steps counts
    the calls. *)
Theorem run_schedule (c : Cli) (d : Driver) :
  main c = Ok d ->
  exists n,
    train_steps d = Z.of_nat n /\
    update_flags (trace d) =
      map (fun i => adversary_turn (Z.of_nat i)
                      (if method_eqb (default nr_mdp (cli_method c)) pr_mdp then 11 else 2)
                      (cli_flip_ratio c))
          (seq 0 n).
Proof.
  intros H. destruct (main_run_inv c d H) as (a & Ha & (n & Hn & Hfl) & _).
  destruct (derive_args_fields _ _ Ha) as (Hr & _ & _ & _ & _ & Hflip & _).
  exists n. split; [exact Hn |]. rewrite Hfl.
  apply map_ext. intros i. unfold scheduled. simpl. rewrite Hr, Hflip. simpl.
  destruct (method_eqb _ _); reflexivity.
Qed.

(** X13. At the end of a run the train-reward, eval-reward and loss series
    are in step order with no step beyond total_steps, and the three loss
    series carry the same steps, entry by entry. *)
Theorem results_in_step_order (c : Cli) (d : Driver) :
  main c = Ok d ->
  ordered_upto (total_steps d) (r_train_rewards (results_dict d)) /\
  ordered_upto (total_steps d) (r_eval_rewards (results_dict d)) /\
  ordered_upto (total_steps d) (r_value_losses (results_dict d)) /\
  map fst (r_policy_losses (results_dict d)) = map fst (r_value_losses (results_dict d)) /\
  map fst (r_adversary_losses (results_dict d)) = map fst (r_value_losses (results_dict d)).
Proof.
  intros H. destruct (main_run_inv c d H) as (a & _ & _ & _ & Hrest). exact Hrest.
Qed.

End RunFacts.

Lemma exported_records_complete_witness :
  exists d : @Driver Toy.friendly,
    main Toy.small_cli = Ok d /\
    forall j l, hacky_store d !! j = Some l ->
                0 <= j <= ep d /\ l <> [] /\ Forall complete_record l.
Proof.
  destruct small_run_ends as [d Hd]. exists d. split; [exact Hd |].
  apply (exported_records_complete (W := Toy.friendly) Toy.small_cli d Hd).
Defined.

Lemma episode_record_count_witness :
  exists d : @Driver Toy.friendly,
    main Toy.small_cli = Ok d /\
    length (records_at (hacky_store d) 0) =
    pred (length (episode_at 0 (episodes (rollout_obs (trace d))) 0)).
Proof.
  destruct small_run_ends as [d Hd]. exists d. split; [exact Hd |].
  apply (episode_record_count (W := Toy.friendly) Toy.small_cli d Hd).
Defined.

Lemma episode_counter_witness :
  exists d : @Driver Toy.friendly,
    main Toy.small_cli = Ok d /\
    ep d = Z.of_nat (length (r_train_rewards (results_dict d))).
Proof.
  destruct small_run_ends as [d Hd]. exists d. split; [exact Hd |].
  apply (episode_counter (W := Toy.friendly) Toy.small_cli d Hd).
Defined.

Lemma run_schedule_witness :
  exists (d : @Driver Toy.friendly) n,
    main Toy.small_cli = Ok d /\
    train_steps d = Z.of_nat n /\
    update_flags (trace d) = map (fun i => adversary_turn (Z.of_nat i) 2 false) (seq 0 n).
Proof.
  destruct small_run_ends as [d Hd].
  destruct (run_schedule (W := Toy.friendly) Toy.small_cli d Hd) as (n & Hn & Hfl).
  exists d, n. repeat split; assumption.
Defined.

Lemma results_in_step_order_witness :
  exists d : @Driver Toy.friendly,
    main Toy.small_cli = Ok d /\
    ordered_upto (total_steps d) (r_value_losses (results_dict d)).
Proof.
  destruct small_run_ends as [d Hd]. exists d. split; [exact Hd |].
  apply (results_in_step_order (W := Toy.friendly) Toy.small_cli d Hd).
Defined.

(** ** Saving *)

Section Saving.
Context `{W : World}.

Lemma for_range_count_nat {S : Type} (f : S -> nat) (k : nat) (body : S -> result S) :
  (forall s s', body s = Ok s' -> f s' = (f s + k)%nat) ->
  forall n s s', for_range n body s = Ok s' -> f s' = (f s + n * k)%nat.
Proof.
  intros Hbody n. induction n as [| n IH]; intros s s' Hrun; simpl in Hrun.
  - injection Hrun as <-. lia.
  - destruct (body s) as [s1 | e] eqn:Hb; simpl in Hrun; [| discriminate].
    rewrite (IH _ _ Hrun), (Hbody _ _ Hb). lia.
Qed.

Lemma for_range_saved (body : Driver -> result Driver) :
  (forall s s', body s = Ok s' -> results_saved s' \/ s' = s) ->
  forall n s s', for_range n body s = Ok s' -> results_saved s' \/ s' = s.
Proof.
  intros Hbody n. induction n as [| n IH]; intros s s' Hrun; simpl in Hrun.
  - injection Hrun as <-. auto.
  - destruct (body s) as [s1 | e] eqn:Hb; simpl in Hrun; [| discriminate].
    destruct (IH _ _ Hrun) as [Hk | ->]; [auto |]. apply (Hbody _ _ Hb).
Qed.

(** A cycle saves once, after everything else. *)
Lemma cycle_saves (a : Args) (d d' : Driver) :
  cycle a d = Ok d' ->
  save_calls (trace d') = (save_calls (trace d) + 1)%nat /\
  length (pickle_dumps (trace d')) = (length (pickle_dumps (trace d)) + 1)%nat /\
  results_saved d'.
Proof.
  unfold cycle.
  assert (H1 : save_calls (trace (rollout_phase a d)) = save_calls (trace d) /\
               pickle_dumps (trace (rollout_phase a d)) = pickle_dumps (trace d)).
  { unfold rollout_phase.
    induction (range_len (num_rollout_steps a)) as [| n [IH1 IH2]]; [auto |].
    rewrite Nat.iter_succ.
    destruct (rollout_step_results a (Nat.iter n (rollout_step a) d))
      as (o & x & _ & _ & _ & _ & _ & R1 & R2).
    rewrite R1, R2. auto. }
  destruct (update_phase a (rollout_phase a d)) as [d2 |] eqn:H2; [| discriminate].
  simpl. intros [= <-].
  assert (H2' : save_calls (trace d2) = save_calls (trace d) /\
                pickle_dumps (trace d2) = pickle_dumps (trace d)).
  { revert H2. unfold update_phase. destruct (_ >? _).
    - destruct (for_range _ _ _) as [d1 |] eqn:Hloop; [| discriminate].
      simpl. intros [= <-]. simpl.
      eapply (for_range_inv
                (fun s => save_calls (trace s) = save_calls (trace d) /\
                          pickle_dumps (trace s) = pickle_dumps (trace d)));
        [| exact H1 | exact Hloop].
      intros s s' [Hs1 Hs2] Hstep.
      destruct (train_step_schedule a s s' Hstep) as (_ & _ & _ & T1 & T2).
      rewrite T1, T2. auto.
    - intros [= <-]. exact H1. }
  assert (H3 : save_calls (trace (eval_phase a d2)) = save_calls (trace d) /\
               pickle_dumps (trace (eval_phase a d2)) = pickle_dumps (trace d)).
  { unfold eval_phase.
    induction (range_len (num_rollout_steps a)) as [| n [IH1 IH2]]; [exact H2' |].
    rewrite Nat.iter_succ.
    destruct (eval_step_results (Nat.iter n eval_step d2)) as (_ & _ & R1 & R2).
    rewrite R1, R2. auto. }
  destruct H3 as [H3 H4].
  destruct (save_results (eval_phase a d2)) as (S1 & S2 & S3).
  unfold results_saved. rewrite S1, S2, S3, H3, H4, length_app, last_snoc. simpl.
  repeat split; lia.
Qed.

(** X14. A run that ended has saved the model and dumped the results once
    per cycle, nb_epochs * num_epochs_cycles times in all, and when that
    number is not zero the last results dumped are the results the run
    ends with. *)
Theorem results_dumped_every_cycle (c : Cli) (d : Driver) :
  main c = Ok d ->
  exists a nb,
    derive_args (parse_args c) = Ok a /\ compute_nb_epochs a = Ok nb /\
    save_calls (trace d) = (range_len nb * range_len (num_epochs_cycles a))%nat /\
    length (pickle_dumps (trace d)) = (range_len nb * range_len (num_epochs_cycles a))%nat /\
    ((range_len nb * range_len (num_epochs_cycles a))%nat <> O ->
     last (pickle_dumps (trace d)) = Some (results_dict d)).
Proof.
  intros H. destruct (main_inv c d H) as (a & nb & d0 & d1 & Ha & Hs & Ht & ->).
  destruct (setup_spec a nb d0 Hs) as (Hnb & _).
  exists a, nb. split; [exact Ha |]. split; [exact Hnb |].
  assert (H0 : save_calls (trace d0) = O /\ pickle_dumps (trace d0) = []).
  { revert Hs. unfold setup, make_base_dir.
    destruct (set_seed_everywhere (seed a)); simpl; [| discriminate].
    destruct (os_makedirs _); simpl;
      (destruct (compute_nb_epochs a) as [nb' | err]; simpl; [| discriminate]);
      break_lets; intros [= _ <-]; auto. }
  destruct H0 as [H01 H02].
  assert (Hcount : save_calls (trace d1) =
                   (save_calls (trace d0) + range_len nb * (range_len (num_epochs_cycles a) * 1))%nat).
  { unfold training in Ht. revert Ht.
    apply (for_range_count_nat (fun s => save_calls (trace s))).
    intros s s'. unfold epoch.
    apply (for_range_count_nat (fun s => save_calls (trace s))).
    intros t t' Hc. apply (cycle_saves _ _ _ Hc). }
  assert (Hlen : length (pickle_dumps (trace d1)) =
                 (length (pickle_dumps (trace d0))
                  + range_len nb * (range_len (num_epochs_cycles a) * 1))%nat).
  { unfold training in Ht. revert Ht.
    apply (for_range_count_nat (fun s => length (pickle_dumps (trace s)))).
    intros s s'. unfold epoch.
    apply (for_range_count_nat (fun s => length (pickle_dumps (trace s)))).
    intros t t' Hc. apply (cycle_saves _ _ _ Hc). }
  assert (Hsaved : results_saved d1 \/ d1 = d0).
  { unfold training in Ht. revert Ht. apply for_range_saved.
    intros s s'. unfold epoch. apply for_range_saved.
    intros t t' Hc. left. apply (cycle_saves _ _ _ Hc). }
  unfold log_events. simpl. rewrite save_calls_app, pickle_dumps_app. simpl.
  rewrite app_nil_r, Hcount, Hlen, H01, H02. simpl.
  change (save_calls [EvJsonDump (hacky_store d1)]) with 0%nat.
  split; [lia |]. split; [lia |].
  intros Hne. destruct Hsaved as [Hk | ->]; [exact Hk |].
  rewrite H01 in Hcount. lia.
Qed.

(** X15. An evaluation phase changes neither total_steps nor train_steps,
    makes no update call, adds no rollout step to the dataset, and leaves
    the state variable of the training loop, the dataset variables, the
    loss accumulators and the loss series as they were. *)
Theorem evaluation_frame (a : Args) (d : Driver) :
  total_steps (eval_phase a d) = total_steps d /\
  train_steps (eval_phase a d) = train_steps d /\
  state (eval_phase a d) = state d /\
  dataset_vars (eval_phase a d) = dataset_vars d /\
  accumulators (eval_phase a d) = accumulators d /\
  loss_series (results_dict (eval_phase a d)) = loss_series (results_dict d) /\
  update_flags (trace (eval_phase a d)) = update_flags (trace d) /\
  rollout_obs (trace (eval_phase a d)) = rollout_obs (trace d).
Proof.
  destruct (eval_phase_frame a d)
    as (E1 & E2 & _ & E4 & E5 & E6 & E7 & E8 & _ & E10 & _).
  unfold dataset_vars, accumulators, loss_series. repeat split; assumption.
Qed.

End Saving.

Lemma results_dumped_every_cycle_witness :
  exists d : @Driver Toy.friendly,
    main Toy.small_cli = Ok d /\
    save_calls (trace d) = 4%nat /\
    last (pickle_dumps (trace d)) = Some (results_dict d).
Proof.
  destruct small_run_ends as [d Hd].
  destruct (results_dumped_every_cycle (W := Toy.friendly) Toy.small_cli d Hd)
    as (a & nb & Ha & Hnb & Hc & _ & Hlast).
  injection Ha as <-. injection Hnb as <-.
  exists d. split; [exact Hd |]. split; [exact Hc |].
  apply Hlast. discriminate.
Defined.

(** ** Paths *)

Lemma str_app_cons (c : ascii) (a b : string) :
  String.append (String c a) b = String c (String.append a b).
Proof. reflexivity. Qed.

Lemma str_app_nil_l (b : string) : String.append EmptyString b = b.
Proof. reflexivity. Qed.

Lemma str_app_assoc (a b c : string) :
  String.append (String.append a b) c = String.append a (String.append b c).
Proof.
  induction a as [| x a IH]; [reflexivity |].
  rewrite !str_app_cons, IH. reflexivity.
Qed.

Lemma str_length_app (a b : string) :
  String.length (String.append a b) = (String.length a + String.length b)%nat.
Proof.
  induction a as [| x a IH]; [reflexivity |].
  rewrite str_app_cons. simpl. rewrite IH. reflexivity.
Qed.

Lemma str_prefix_app (x t : string) : String.prefix x (String.append x t) = true.
Proof.
  induction x as [| c x IH]; [rewrite str_app_nil_l; destruct t; reflexivity |].
  rewrite str_app_cons. simpl. destruct (ascii_dec c c); [exact IH | contradiction].
Qed.

Lemma str_prefix_split (x s : string) :
  String.prefix x s = true -> exists t, s = String.append x t.
Proof.
  revert s. induction x as [| c x IH]; intros s H.
  - exists s. reflexivity.
  - destruct s as [| c' s]; simpl in H; [discriminate |].
    destruct (ascii_dec c c') as [<- | _]; [| discriminate].
    destruct (IH s H) as [t ->]. exists t. reflexivity.
Qed.

Lemma str_take_drop (n : nat) (s : string) :
  String.append (str_take n s) (str_drop n s) = s.
Proof.
  revert s. induction n as [| n IH]; intros s; [reflexivity |].
  destruct s as [| c s]; simpl; [reflexivity |].
  rewrite str_app_cons, IH. reflexivity.
Qed.

Lemma str_take_length (n : nat) (s : string) :
  (String.length (str_take n s) <= n)%nat.
Proof.
  revert s. induction n as [| n IH]; intros s; simpl; [lia |].
  destruct s as [| c s]; simpl; [lia |]. specialize (IH s). lia.
Qed.

Lemma str_take_exact (x t : string) :
  str_take (String.length x) (String.append x t) = x.
Proof.
  induction x as [| c x IH]; [destruct t; reflexivity |].
  rewrite str_app_cons. simpl. rewrite IH. reflexivity.
Qed.

Lemma str_take_app (p t : string) (n : nat) :
  str_take (String.length p + n) (String.append p t) = String.append p (str_take n t).
Proof.
  induction p as [| c p IH]; [reflexivity |].
  rewrite !str_app_cons. simpl. rewrite IH. reflexivity.
Qed.

Lemma str_drop_app (p x : string) : str_drop (String.length p) (String.append p x) = x.
Proof.
  induction p as [| c p IH]; [reflexivity |]. rewrite str_app_cons. simpl. exact IH.
Qed.

Lemma str_endswith_split (s x : string) :
  str_endswith s x = true -> exists p, s = String.append p x.
Proof.
  unfold str_endswith. intros H. apply andb_true_iff in H as [_ H].
  apply String.eqb_eq in H.
  remember (String.length s - String.length x)%nat as k.
  exists (str_take k s). rewrite <- H. symmetry. apply str_take_drop.
Qed.

Lemma str_endswith_app (p x : string) : str_endswith (String.append p x) x = true.
Proof.
  unfold str_endswith. rewrite str_length_app. apply andb_true_iff. split.
  - apply Nat.leb_le. lia.
  - replace (String.length p + String.length x - String.length x)%nat
      with (String.length p) by lia.
    rewrite str_drop_app. apply String.eqb_refl.
Qed.

Lemma str_endswith_short (s x : string) :
  (String.length s < String.length x)%nat -> str_endswith s x = false.
Proof.
  intros H. unfold str_endswith.
  destruct (Nat.leb_spec (String.length x) (String.length s)); [lia | reflexivity].
Qed.

Lemma str_find_from_cons (x : string) (c : ascii) (s : string) (i : Z) :
  str_find_from x (String c s) i =
  if String.prefix x (String c s) then i else str_find_from x s (i + 1).
Proof. reflexivity. Qed.

(** [find] returns the first place where [x] occurs. *)
Lemma str_find_first (x p : string) :
  forall s rest i,
    s = String.append p (String.append x rest) ->
    exists k rest',
      str_find_from x s i = i + Z.of_nat k /\ (k <= String.length p)%nat /\
      String.length (str_take k s) = k /\
      s = String.append (str_take k s) (String.append x rest').
Proof.
  induction p as [| c p IH]; intros s rest i Hs.
  - rewrite str_app_nil_l in Hs. subst s. exists O, rest.
    assert (Hp : String.prefix x (String.append x rest) = true) by apply str_prefix_app.
    split; [| split; [simpl; lia | split; reflexivity]].
    destruct (String.append x rest); simpl; simpl in Hp; rewrite Hp; lia.
  - rewrite str_app_cons in Hs. subst s. rewrite str_find_from_cons.
    destruct (String.prefix x (String c (String.append p (String.append x rest)))) eqn:Hp.
    + destruct (str_prefix_split _ _ Hp) as [t Ht].
      exists O, t. split; [lia |]. split; [simpl; lia |]. split; [reflexivity | exact Ht].
    + destruct (IH _ rest (i + 1) eq_refl) as (k & rest' & Hk & Hle & Hlen & Hsplit).
      exists (S k), rest'. rewrite Hk. split; [lia |]. split; [simpl; lia |].
      simpl. rewrite Hlen, str_app_cons, <- Hsplit. split; reflexivity.
Qed.

(** [find] returns -1 when [x] occurs nowhere. *)
Lemma str_find_none (x : string) :
  forall s i,
    (forall p rest, s <> String.append p (String.append x rest)) ->
    str_find_from x s i = -1.
Proof.
  induction s as [| c s IH]; intros i Hno.
  - change (str_find_from x EmptyString i)
      with (if String.prefix x EmptyString then i else -1).
    destruct (String.prefix x EmptyString) eqn:Hp; [| reflexivity].
    destruct (str_prefix_split _ _ Hp) as [t Ht]. exfalso.
    apply (Hno EmptyString t). exact Ht.
  - rewrite str_find_from_cons.
    destruct (String.prefix x (String c s)) eqn:Hp.
    + destruct (str_prefix_split _ _ Hp) as [t Ht]. exfalso.
      apply (Hno EmptyString t). exact Ht.
    + apply IH. intros p rest Hs. apply (Hno (String c p) rest).
      rewrite str_app_cons, Hs. reflexivity.
Qed.

(** X16. Whatever git answers and wherever the process runs,
    [find_root_dir] returns a path that ends in
    action-robust-decision-transformer/codebase/baselines/arrl. *)
Theorem find_root_dir_suffix (git : result string) (cwd : string) :
  exists p,
    find_root_dir git cwd = String.append p (String.append repo_name arrl_subdir).
Proof.
  unfold find_root_dir.
  remember (match git with
            | Ok out => out
            | Raise _ =>
                py_slice_to cwd
                  (str_find cwd repo_name + Z.of_nat (String.length repo_name))
            end) as root.
  destruct (str_endswith root repo_name) eqn:He.
  - destruct (str_endswith_split _ _ He) as [p ->]. exists p.
    rewrite str_app_nil_l, str_app_assoc. reflexivity.
  - exists (String.append root "/"). rewrite !str_app_assoc. reflexivity.
Qed.

(** X17. When git names a root that already ends in the repository name,
    the name is not added again and the working directory plays no part. *)
Theorem find_root_dir_inside_repo (p cwd : string) :
  find_root_dir (Ok (String.append p repo_name)) cwd =
  String.append p (String.append repo_name arrl_subdir).
Proof.
  unfold find_root_dir. rewrite str_endswith_app, str_app_nil_l, str_app_assoc.
  reflexivity.
Qed.

(** X18. When git fails and the working directory lies inside the
    repository, the root is the working directory cut after the first
    occurrence of the repository name. *)
Theorem find_root_dir_fallback (e : exn) (cwd p rest : string) :
  cwd = String.append p (String.append repo_name rest) ->
  exists p' rest',
    cwd = String.append p' (String.append repo_name rest') /\
    (String.length p' <= String.length p)%nat /\
    find_root_dir (Raise e) cwd = String.append p' (String.append repo_name arrl_subdir).
Proof.
  intros Hcwd.
  destruct (str_find_first repo_name p cwd rest 0 Hcwd)
    as (k & rest' & Hk & Hle & Hlen & Hsplit).
  exists (str_take k cwd), rest'. split; [exact Hsplit |]. split; [lia |].
  unfold find_root_dir, str_find, py_slice_to. rewrite Hk.
  destruct (Z.ltb_spec (0 + Z.of_nat k + Z.of_nat (String.length repo_name)) 0); [lia |].
  replace (Z.to_nat (0 + Z.of_nat k + Z.of_nat (String.length repo_name)))
    with (String.length (str_take k cwd) + String.length repo_name)%nat by lia.
  remember (str_take k cwd) as P eqn:HP. clear HP Hcwd Hk Hlen.
  subst cwd.
  rewrite str_take_app, str_take_exact, str_endswith_app, str_app_nil_l, str_app_assoc.
  reflexivity.
Qed.

(** X19. When git fails and the repository name occurs nowhere in the
    working directory, [find] gives -1 and the root is the first 33
    characters of the working directory, followed by the repository name. *)
Theorem find_root_dir_lost (e : exn) (cwd : string) :
  (forall p rest, cwd <> String.append p (String.append repo_name rest)) ->
  find_root_dir (Raise e) cwd =
  String.append (str_take 33 cwd)
    (String.append (String.append "/" repo_name) arrl_subdir).
Proof.
  intros Hno. unfold find_root_dir, str_find, py_slice_to.
  rewrite (str_find_none repo_name cwd 0 Hno).
  change (-1 + Z.of_nat (String.length repo_name)) with 33.
  change (33 <? 0) with false. change (Z.to_nat 33) with 33%nat.
  cbv iota. rewrite str_endswith_short; [reflexivity |].
  pose proof (str_take_length 33 cwd). change (String.length repo_name) with 34%nat. lia.
Qed.

Lemma find_root_dir_fallback_witness :
  exists p' rest',
    "/home/u/action-robust-decision-transformer/codebase"%string
      = String.append p' (String.append repo_name rest') /\
    find_root_dir (Raise OtherOSError)
      "/home/u/action-robust-decision-transformer/codebase"
    = String.append p' (String.append repo_name arrl_subdir).
Proof.
  destruct (find_root_dir_fallback OtherOSError
              "/home/u/action-robust-decision-transformer/codebase"
              "/home/u/" "/codebase" eq_refl)
    as (p' & rest' & Hsplit & _ & Hroot).
  exists p', rest'. split; assumption.
Defined.

Lemma find_root_dir_lost_witness :
  find_root_dir (Raise OtherOSError) "/tmp" =
  "/tmp/action-robust-decision-transformer/codebase/baselines/arrl"%string.
Proof.
  apply (find_root_dir_lost OtherOSError "/tmp").
  intros p rest H. apply (f_equal String.length) in H.
  rewrite !str_length_app in H. simpl in H. lia.
Defined.

Lemma str_app_inv_head (a b c : string) :
  String.append a b = String.append a c -> b = c.
Proof.
  induction a as [| x a IH]; [auto |].
  rewrite !str_app_cons. intros [= H]. apply IH, H.
Qed.

(** X20. For every command line the noise part of the checkpoint
    directory is param_noise/ with [--param_noise] and ou_noise/ without
    it: the no_noise/ branch of lines 115-120 is never taken, since
    ou_noise is always set. *)
Theorem base_dir_noise_segment (c : Cli) (a : Args) (root alpha : string) :
  derive_args (parse_args c) = Ok a ->
  exists rest,
    base_dir root alpha a =
    String.append root
      (String.append "/models/"
         (String.append (env_name a)
            (String.append "/"
               (String.append
                  (if cli_param_noise c then "param_noise/" else "ou_noise/")
                  rest)))).
Proof.
  intros Hderive. pose proof (derive_args_unchanged _ _ Hderive) as Hf.
  injection Hf as Hou Hpn _ _ _ _ _ _ _ _ _ _. simpl in Hou, Hpn.
  unfold base_dir. rewrite Hou, Hpn.
  replace (if cli_param_noise c then "param_noise/"%string
           else if true then "ou_noise/"%string else "no_noise/"%string)
    with (if cli_param_noise c then "param_noise/"%string else "ou_noise/"%string)
    by (destruct (cli_param_noise c); reflexivity).
  destruct (method_eqb (exploration_of a) (method_ a)),
    (negb (method_eqb (method_ a) mdp)), (flip_ratio a);
    rewrite !str_app_assoc; eexists; reflexivity.
Qed.

(** X21. Two runs that differ only in flip_ratio get different checkpoint
    directories when the method is pr_mdp or nr_mdp, and the same
    directory when the method is mdp. *)
Theorem base_dir_flip (root alpha : string) (a1 a2 : Args) :
  (env_name a1, param_noise a1, ou_noise a1, method_ a1, exploration_method a1,
   ratio a1, seed a1)
  = (env_name a2, param_noise a2, ou_noise a2, method_ a2, exploration_method a2,
     ratio a2, seed a2) ->
  flip_ratio a1 = true ->
  flip_ratio a2 = false ->
  if method_eqb (method_ a1) mdp
  then base_dir root alpha a1 = base_dir root alpha a2
  else base_dir root alpha a1 <> base_dir root alpha a2.
Proof.
  intros Heq Hf1 Hf2. injection Heq as E1 E2 E3 E4 E5 E6 E7.
  unfold base_dir, exploration_of. rewrite E1, E2, E3, E4, E5, E6, E7, Hf1, Hf2.
  destruct (method_ a2); destruct (exploration_method a2) as [[] |]; simpl;
    try reflexivity;
    intros H; rewrite !str_app_assoc in H;
    repeat (apply str_app_inv_head in H);
    rewrite !str_app_cons in H; discriminate H.
Qed.

Lemma base_dir_noise_segment_witness :
  exists rest,
    base_dir "/r" "0.1" (set_env_name Toy.args0 "HalfCheetah-v4") =
    String.append "/r/models/HalfCheetah-v4/param_noise/" rest.
Proof.
  destruct (base_dir_noise_segment Toy.small_cli
              (set_env_name Toy.args0 "HalfCheetah-v4") "/r" "0.1" eq_refl)
    as [rest Hrest].
  exists rest. rewrite Hrest. reflexivity.
Defined.

Lemma base_dir_flip_witness :
  base_dir "/r" "0.1" Toy.args0_flipped <> base_dir "/r" "0.1" Toy.args0.
Proof.
  apply (base_dir_flip "/r" "0.1" Toy.args0_flipped Toy.args0); reflexivity.
Defined.
